(** * AutoParq: the parking engine of [parking_models.py]

    A shallow embedding of the data model and the business logic of
    [src/parking_models.py] (enumerations, [ParkingRules], [Vehicle],
    [Slot], [ParkingLot]) and the properties of the specification that
    were checked against it.

    Conventions of the embedding.
    - A [datetime] is an integer number of microseconds on the local
      clock's axis (its resolution in Python); a [timedelta] is an
      integer number of microseconds as well.  Every call of
      [datetime.now()] in the source is an explicit clock-reading
      argument of the embedded function.
    - Python floats (fees, hours, days) are exact rationals [Q].  The
      two agree wherever every intermediate value is a binary fraction
      (whole hours, the rates, the cap); elsewhere the binary sum that
      Python rounds may sit on the other side of a half cent, so a fee
      of the program and the fee computed here can differ by 0.01.
    - [Vehicle] objects live in a store indexed by their object
      identity; a [Slot] holds a reference, as in Python, so that one
      vehicle object can be reached from several places.
    - [ParkingLot.slots] is a dict filled once at construction and only
      read afterwards: it is the list of its values in insertion order,
      each value carrying its key in the field [id].
    - The re-entrant lock is not modelled: every operation is a
      sequential function on the state. *)

From Stdlib Require Import ZArith QArith Qminmax String List Lia Bool.
From stdpp Require Import gmap strings list pretty.
Import ListNotations.

Local Open Scope Z_scope.
Local Open Scope string_scope.

(** ** Time *)

Definition datetime := Z.
Definition timedelta := Z.

Definition MICROSECOND : timedelta := 1.
Definition SECOND : timedelta := 1000000.
Definition HOUR : timedelta := 3600 * SECOND.
Definition DAY : timedelta := 24 * HOUR.

(** [timedelta(hours=h)] and [timedelta(days=d)] for integer arguments. *)
Definition timedelta_hours (h : Z) : timedelta := h * HOUR.
Definition timedelta_days (d : Z) : timedelta := d * DAY.

(** [td.total_seconds()] *)
Definition total_seconds (d : timedelta) : Q := Qmake d 1000000.

(** [round(x, 2)]: nearest multiple of 1/100, ties to the even one. *)
Definition round2 (x : Q) : Q :=
  let n := (Qnum x * 100)%Z in
  let d := Zpos (Qden x) in
  let q := (n / d)%Z in
  let r := (n mod d)%Z in
  let k := if (2 * r <? d)%Z then q
           else if (d <? 2 * r)%Z then (q + 1)%Z
           else if Z.even q then q else (q + 1)%Z in
  Qred (Qmake k 100).

(** Python's [max(a, b)] and [min(a, b)] on numbers. *)
Definition py_max (a b : Q) : Q := if Qle_bool b a then a else b.
Definition py_min (a b : Q) : Q := if Qle_bool a b then a else b.

(** ** Enumerations *)

Module VehicleType.
Inductive t := SMALL | MEDIUM | LARGE.

Definition value (v : t) : string :=
  match v with SMALL => "Small" | MEDIUM => "Medium" | LARGE => "Large" end.

(** Iteration order of [for vehicle_type in VehicleType]. *)
Definition members : list t := [SMALL; MEDIUM; LARGE].

Definition eqb (a b : t) : bool :=
  match a, b with
  | SMALL, SMALL | MEDIUM, MEDIUM | LARGE, LARGE => true
  | _, _ => false
  end.

End VehicleType.

Module CustomerType.
Inductive t := REGULAR | VIP.

Definition value (c : t) : string :=
  match c with REGULAR => "Regular" | VIP => "VIP" end.

Definition eqb (a b : t) : bool :=
  match a, b with
  | REGULAR, REGULAR | VIP, VIP => true
  | _, _ => false
  end.

End CustomerType.

(** The source's [Section] enumeration ([Section] is a keyword here). *)
Module ParkSection.
Inductive t := REGULAR | VIP | EV.

Definition value (s : t) : string :=
  match s with REGULAR => "Regular" | VIP => "VIP" | EV => "EV" end.

(** Iteration order of [for section in Section]. *)
Definition members : list t := [REGULAR; VIP; EV].

Definition eqb (a b : t) : bool :=
  match a, b with
  | REGULAR, REGULAR | VIP, VIP | EV, EV => true
  | _, _ => false
  end.

End ParkSection.

(** ** ParkingRules *)

Module ParkingRules.
(** [TIME_LIMITS], in hours. *)
Definition TIME_LIMITS (c : CustomerType.t) : Z :=
  match c with CustomerType.REGULAR => 24 | CustomerType.VIP => 720 end.

(** [DAILY_RATES], in rupees. *)
Definition DAILY_RATES (v : VehicleType.t) : Q :=
  match v with
  | VehicleType.SMALL => 50
  | VehicleType.MEDIUM => 100
  | VehicleType.LARGE => 150
  end.

(** [MONTHLY_MEMBERSHIP_RATES]: [round(rate * 30 * 0.7, 2)]. *)
Definition MONTHLY_MEMBERSHIP_RATES (v : VehicleType.t) : Q :=
  round2 (DAILY_RATES v * 30 * (7 # 10)).

(** [RE_ENTRY_RULES] *)
Definition max_re_entries : Z := 3.
Definition re_entry_window : Q := 24.
Definition re_entry_fee : Q := 20.

(** [RESTRICTIONS] (the entries the engine reads) *)
Definition max_overstay_penalty : Q := 500.
Definition penalty_per_hour : Q := 25.
Definition commercial_vehicle_restrictions : bool := true.
Definition peak_hours : list (string * string) :=
  [("09:00", "11:00"); ("17:00", "19:00")].
End ParkingRules.

(** ** Python exceptions

    A few engine functions dereference [slot.vehicle] or subtract from
    [slot.allocation_time]; on [None] Python raises.  [Exc] records
    that outcome.  A function that may have written to a vehicle before
    it raises returns the store next to its answer; the others have
    modified nothing when they raise. *)

Inductive exn := AttributeError | TypeError.

Inductive py (A : Type) : Type :=
| Ret (a : A)
| Exc (e : exn).
Arguments Ret {A} a.
Arguments Exc {A} e.

#[global] Instance py_bind : MBind py := fun A B (k : A -> py B) (m : py A) =>
  match m with Ret a => k a | Exc e => Exc e end.

(** ** Vehicle *)

Module Vehicle.

Record t := mk {
  vehicle_type : VehicleType.t;
  customer_type : CustomerType.t;
  license_plate : string;
  ticket_id : string;
  allocation_time : option datetime;
  re_entry_count : Z;
  last_re_entry : option datetime;
  total_overstay_penalty : Q;
  warnings_issued : Z;
  is_suspended : bool;
  suspension_reason : string;
  parking_sessions : list (datetime * datetime * string);
  total_parking_time : Q;
  total_fees_paid : Q;
  accessible_parking : bool;
  ev_charging : bool;
  reservation_id : option string;
  vip_pass_expiry : option datetime
}.

(** [Vehicle(vehicle_type, customer_type, license_plate)]; the ticket id
    drawn from [uuid.uuid4()] is an argument. *)
Definition __init__ (vt : VehicleType.t) (ct : CustomerType.t)
    (plate : string) (ticket : string) : t :=
  mk vt ct plate ticket None 0 None 0%Q 0 false "" [] 0%Q 0%Q
     false false None None.

Definition set_allocation_time (x : option datetime) (v : t) : t :=
  let '(mk a b c d _ f g h i j k l m n o p q r) := v in
  mk a b c d x f g h i j k l m n o p q r.

Definition set_re_entry_count (x : Z) (v : t) : t :=
  let '(mk a b c d e _ g h i j k l m n o p q r) := v in
  mk a b c d e x g h i j k l m n o p q r.

Definition set_last_re_entry (x : option datetime) (v : t) : t :=
  let '(mk a b c d e f _ h i j k l m n o p q r) := v in
  mk a b c d e f x h i j k l m n o p q r.

Definition set_warnings_issued (x : Z) (v : t) : t :=
  let '(mk a b c d e f g h _ j k l m n o p q r) := v in
  mk a b c d e f g h x j k l m n o p q r.

Definition set_suspended (x : bool) (reason : string) (v : t) : t :=
  let '(mk a b c d e f g h i _ _ l m n o p q r) := v in
  mk a b c d e f g h i x reason l m n o p q r.

Definition set_sessions (x : list (datetime * datetime * string))
    (time : Q) (v : t) : t :=
  let '(mk a b c d e f g h i j k _ _ n o p q r) := v in
  mk a b c d e f g h i j k x time n o p q r.

Definition set_total_fees_paid (x : Q) (v : t) : t :=
  let '(mk a b c d e f g h i j k l m _ o p q r) := v in
  mk a b c d e f g h i j k l m x o p q r.

Definition set_vip_pass_expiry (x : option datetime) (v : t) : t :=
  let '(mk a b c d e f g h i j k l m n o p q _) := v in
  mk a b c d e f g h i j k l m n o p q x.

(** [x > y] on floats. *)
Definition Qgtb (x y : Q) : bool := negb (Qle_bool x y).

(** [can_re_enter]: the answer and the vehicle after the call.  [now]
    is the reading of the clock, taken only when [last_re_entry] is
    set. *)
Definition can_re_enter (now : datetime) (v : t) : bool * t :=
  if (ParkingRules.max_re_entries <=? re_entry_count v)%Z then (false, v)
  else
    let v' :=
      match last_re_entry v with
      | Some last =>
          let hours_since_last := (total_seconds (now - last)%Z / 3600)%Q in
          if Qgtb hours_since_last ParkingRules.re_entry_window
          then set_re_entry_count 0 v
          else v
      | None => v
      end in
    (negb (is_suspended v'), v').

Definition record_re_entry (now : datetime) (v : t) : t :=
  set_last_re_entry (Some now) (set_re_entry_count (re_entry_count v + 1) v).

Definition add_parking_session (entry_time exit_time : datetime)
    (slot_id : string) (v : t) : t :=
  let duration_hours := (total_seconds (exit_time - entry_time)%Z / 3600)%Q in
  set_sessions (parking_sessions v ++ [(entry_time, exit_time, slot_id)])%list
               (total_parking_time v + duration_hours)%Q v.

Definition get_re_entry_fee (v : t) : Q :=
  if (0 <? re_entry_count v)%Z then ParkingRules.re_entry_fee else 0%Q.

Definition issue_warning (reason : string) (v : t) : t :=
  let v1 := set_warnings_issued (warnings_issued v + 1) v in
  if (3 <=? warnings_issued v1)%Z
  then set_suspended true "Multiple violations" v1
  else v1.

End Vehicle.

(** The object store: the [Vehicle] object behind every reference. *)
Definition ref := nat.
Definition store := ref -> Vehicle.t.

Definition store_set (r : ref) (v : Vehicle.t) (h : store) : store :=
  fun r' => if Nat.eqb r' r then v else h r'.

Definition store_upd (r : ref) (f : Vehicle.t -> Vehicle.t) (h : store) : store :=
  store_set r (f (h r)) h.

(** ** Slot *)

Module Slot.

Record t := mk {
  id : string;
  level : Z;
  section : ParkSection.t;
  vehicle_type : VehicleType.t;
  vehicle : option ref;
  allocation_time : option datetime;
  is_occupied : bool
}.

Definition __init__ (slot_id : string) (lvl : Z) (sec : ParkSection.t)
    (vt : VehicleType.t) : t :=
  mk slot_id lvl sec vt None None false.

(** [allocate]: the answer, the slot and the store after the call. *)
Definition allocate (r : ref) (now : datetime) (s : t) (h : store)
    : bool * t * store :=
  if is_occupied s then (false, s, h)
  else
    let h' := store_upd r (Vehicle.set_allocation_time (Some now)) h in
    (true,
     mk (id s) (level s) (section s) (vehicle_type s)
        (Some r) (Vehicle.allocation_time (h' r)) true,
     h').

(** [release]: the vehicle returned and the slot after the call. *)
Definition release (s : t) : option ref * t :=
  if negb (is_occupied s) then (None, s)
  else
    (vehicle s,
     mk (id s) (level s) (section s) (vehicle_type s)
        None (allocation_time s) false).

(** [self.vehicle.<attribute>]: raises when [self.vehicle] is [None]. *)
Definition the_vehicle (s : t) : py ref :=
  match vehicle s with
  | Some r => Ret r
  | None => Exc AttributeError
  end.

(** The test [customer_type == VIP and vip_pass_expiry and now < expiry];
    [now] is read only when the first two conjuncts hold. *)
Definition pass_active (v : Vehicle.t) (now : datetime) : bool :=
  CustomerType.eqb (Vehicle.customer_type v) CustomerType.VIP &&
  match Vehicle.vip_pass_expiry v with
  | Some expiry => (now <? expiry)%Z
  | None => false
  end.

(** [is_expired]; [now_pass] is the reading of the pass test, [now] the
    one of the final comparison. *)
Definition is_expired (h : store) (now_pass now : datetime) (s : t) : py bool :=
  match is_occupied s, allocation_time s with
  | true, Some allocated =>
      r ← the_vehicle s;
      let v := h r in
      if pass_active v now_pass then Ret false
      else
        let time_limit :=
          if CustomerType.eqb (Vehicle.customer_type v) CustomerType.REGULAR
          then timedelta_hours 24 else timedelta_days 30 in
        Ret (time_limit <? now - allocated)%Z
  | _, _ => Ret false
  end.

(** The value of [base_fee] before the overstay penalty is added. *)
Definition base_fee (v : Vehicle.t) (duration : timedelta)
    (now_pass : datetime) : Q :=
  let days_used := py_max 1 (total_seconds duration / (24 * 3600))%Q in
  let daily_rate := ParkingRules.DAILY_RATES (Vehicle.vehicle_type v) in
  if pass_active v now_pass then 0%Q
  else if CustomerType.eqb (Vehicle.customer_type v) CustomerType.VIP
  then ParkingRules.MONTHLY_MEMBERSHIP_RATES (Vehicle.vehicle_type v)
  else (daily_rate * days_used)%Q.

(** The amount added to [base_fee] by the overstay block. *)
Definition overstay_penalty (v : Vehicle.t) (duration : timedelta) : Q :=
  let time_limit_hours := ParkingRules.TIME_LIMITS (Vehicle.customer_type v) in
  let time_limit := timedelta_hours time_limit_hours in
  if (time_limit <? duration)%Z then
    let overstay_hours := (total_seconds (duration - time_limit)%Z / 3600)%Q in
    py_min (overstay_hours * ParkingRules.penalty_per_hour)%Q
           ParkingRules.max_overstay_penalty
  else 0%Q.

(** [calculate_fee]; [now] is the reading that gives [duration],
    [now_pass] the one of the pass test. *)
Definition calculate_fee (h : store) (now now_pass : datetime) (s : t) : py Q :=
  match is_occupied s, allocation_time s with
  | true, Some allocated =>
      let duration := (now - allocated)%Z in
      r ← the_vehicle s;
      let v := h r in
      Ret (round2 (base_fee v duration now_pass + overstay_penalty v duration)%Q)
  | _, _ => Ret 0%Q
  end.

(** The insertion order of [list.sort(key=lambda s: s.level)], which is
    stable: an element stays in front of the later ones of equal level. *)
Fixpoint insert_by_level (x : t) (l : list t) : list t :=
  match l with
  | [] => [x]
  | y :: l' =>
      if (level x <=? level y)%Z then x :: y :: l'
      else y :: insert_by_level x l'
  end.

Fixpoint sort_by_level (l : list t) : list t :=
  match l with
  | [] => []
  | x :: l' => insert_by_level x (sort_by_level l')
  end.

End Slot.

(** ** ParkingLot *)

Module ParkingLot.

Record t := mk {
  slots : list Slot.t;
  vip_passes : gmap string datetime
}.

(** [f"{n}"] and [f"{n:02d}"] for an integer. *)
Definition fmt_d (n : Z) : string := pretty n.
Definition fmt_02d (n : Z) : string :=
  let s := pretty n in
  if (String.length s <? 2)%nat then "0" +:+ s else s.

(** [value[0]] *)
Definition first_letter (s : string) : string := String.substring 0 1 s.

(** One of the three inner loop nests of the constructor: [count] slots
    per vehicle type, in the section [sec], with ids starting by [tag]. *)
Definition section_slots (tag : string) (lvl : Z) (sec : ParkSection.t)
    (count : nat) : list Slot.t :=
  vt ← VehicleType.members;
  i ← seq 0 count;
  [Slot.__init__
     (tag +:+ fmt_d lvl +:+ first_letter (VehicleType.value vt)
          +:+ fmt_02d (Z.of_nat i + 1))
     lvl sec vt].

Definition __init__ : t :=
  mk (lvl ← [1; 2];
      (section_slots "R" lvl ParkSection.REGULAR 15 ++
       section_slots "V" lvl ParkSection.VIP 10 ++
       section_slots "E" lvl ParkSection.EV 6)%list)
     ∅.

(** The comprehension's filter of [_find_slot_in_section]. *)
Definition candidate (vt : VehicleType.t) (sec : ParkSection.t)
    (s : Slot.t) : bool :=
  ParkSection.eqb (Slot.section s) sec &&
  VehicleType.eqb (Slot.vehicle_type s) vt &&
  negb (Slot.is_occupied s).

Definition _find_slot_in_section (vt : VehicleType.t) (sec : ParkSection.t)
    (pl : t) : option Slot.t :=
  let section_slots := List.filter (candidate vt sec) (slots pl) in
  match section_slots with
  | [] => None
  | _ =>
      let sorted :=
        match sec with
        | ParkSection.VIP => Slot.sort_by_level section_slots
        | ParkSection.REGULAR => Slot.sort_by_level section_slots
        | ParkSection.EV => Slot.sort_by_level section_slots
        end in
      head sorted
  end.

Definition preferred_sections (ct : CustomerType.t) (is_ev : bool)
    : list ParkSection.t :=
  if is_ev then [ParkSection.EV]
  else if CustomerType.eqb ct CustomerType.VIP then [ParkSection.VIP]
  else [ParkSection.REGULAR].

Definition fallback_sections (ct : CustomerType.t) (is_ev : bool)
    : list ParkSection.t :=
  if is_ev then
    if CustomerType.eqb ct CustomerType.VIP
    then [ParkSection.VIP; ParkSection.REGULAR]
    else [ParkSection.REGULAR; ParkSection.VIP]
  else if CustomerType.eqb ct CustomerType.VIP
  then [ParkSection.REGULAR; ParkSection.EV]
  else [ParkSection.EV; ParkSection.VIP].

(** [for section in sections: slot = ...; if slot: return slot] *)
Fixpoint search_sections (vt : VehicleType.t) (sections : list ParkSection.t)
    (pl : t) : option Slot.t :=
  match sections with
  | [] => None
  | sec :: rest =>
      match _find_slot_in_section vt sec pl with
      | Some slot => Some slot
      | None => search_sections vt rest pl
      end
  end.

Definition find_slot (vt : VehicleType.t) (ct : CustomerType.t)
    (is_ev : bool) (pl : t) : option Slot.t :=
  match search_sections vt (preferred_sections ct is_ev) pl with
  | Some slot => Some slot
  | None => search_sections vt (fallback_sections ct is_ev) pl
  end.

(** The slot objects are mutated in place; [put] writes the new state
    of the object whose key is [Slot.id s] back into the dict. *)
Definition put (s : Slot.t) (l : list Slot.t) : list Slot.t :=
  map (fun x => if String.eqb (Slot.id x) (Slot.id s) then s else x) l.

(** [allocate_slot]: the slot returned, the lot and the store after. *)
Definition allocate_slot (r : ref) (is_ev : bool) (now : datetime)
    (pl : t) (h : store) : option Slot.t * t * store :=
  let v := h r in
  match find_slot (Vehicle.vehicle_type v) (Vehicle.customer_type v) is_ev pl with
  | Some slot =>
      match Slot.allocate r now slot h with
      | (true, slot', h') => (Some slot', mk (put slot' (slots pl)) (vip_passes pl), h')
      | (false, _, _) => (None, pl, h)
      end
  | None => (None, pl, h)
  end.

(** [slot.is_occupied and slot.vehicle.ticket_id == ticket_id] *)
Definition holds_ticket (h : store) (ticket : string) (s : Slot.t) : py bool :=
  if Slot.is_occupied s then
    r ← Slot.the_vehicle s;
    Ret (String.eqb (Vehicle.ticket_id (h r)) ticket)
  else Ret false.

(** The scan of [release_slot] over [self.slots.values()]: the slot
    returned and the slots after the call. *)
Fixpoint release_scan (h : store) (ticket : string) (l : list Slot.t)
    : py (option Slot.t * list Slot.t) :=
  match l with
  | [] => Ret (None, [])
  | s :: rest =>
      b ← holds_ticket h ticket s;
      if (b : bool) then
        let '(_, s') := Slot.release s in
        Ret (Some s', s' :: rest)
      else
        res ← release_scan h ticket rest;
        Ret (fst res, s :: snd res)
  end.

Definition release_slot (ticket : string) (pl : t) (h : store)
    : py (option Slot.t * t) :=
  res ← release_scan h ticket (slots pl);
  Ret (fst res, mk (snd res) (vip_passes pl)).

Fixpoint ticket_scan (h : store) (ticket : string) (l : list Slot.t)
    : py (option Slot.t) :=
  match l with
  | [] => Ret None
  | s :: rest =>
      b ← holds_ticket h ticket s;
      if (b : bool) then Ret (Some s) else ticket_scan h ticket rest
  end.

Definition get_slot_by_ticket (ticket : string) (pl : t) (h : store)
    : py (option Slot.t) :=
  ticket_scan h ticket (slots pl).

Definition get_all_slots (pl : t) : list Slot.t := slots pl.

Definition get_occupied_slots (pl : t) : list Slot.t :=
  List.filter Slot.is_occupied (slots pl).

(** The inner [len([...])] of [get_available_slots_count]. *)
Definition available_count (vt : VehicleType.t) (sec : ParkSection.t)
    (pl : t) : nat :=
  length (List.filter
            (fun s => VehicleType.eqb (Slot.vehicle_type s) vt &&
                      ParkSection.eqb (Slot.section s) sec &&
                      negb (Slot.is_occupied s))
            (slots pl)).

(** The nested dict, as the lists of its items in insertion order. *)
Definition get_available_slots_count (pl : t)
    : list (string * list (string * nat)) :=
  map (fun vt =>
         (VehicleType.value vt,
          map (fun sec => (ParkSection.value sec, available_count vt sec pl))
              ParkSection.members))
      VehicleType.members.

(** [now.strftime('%H:%M')]; the time axis starts at a local midnight. *)
Definition strftime_HM (now : datetime) : string :=
  let in_day := (now mod DAY)%Z in
  fmt_02d (in_day / HOUR) +:+ ":" +:+ fmt_02d ((in_day mod HOUR) / (60 * SECOND)).

(** [check_peak_hour_restrictions]; every entry of [peak_hours] is
    given already split at its dash. *)
Definition check_peak_hour_restrictions (vt : VehicleType.t)
    (now : datetime) : bool :=
  if negb ParkingRules.commercial_vehicle_restrictions then false
  else
    let current_time := strftime_HM now in
    existsb (fun period =>
               String.leb (fst period) current_time &&
               String.leb current_time (snd period) &&
               VehicleType.eqb vt VehicleType.LARGE)
            ParkingRules.peak_hours.

(** The scan for an occupied slot whose vehicle has the plate. *)
Fixpoint plate_scan (h : store) (plate : string) (l : list Slot.t) : py bool :=
  match l with
  | [] => Ret false
  | s :: rest =>
      if Slot.is_occupied s then
        r ← Slot.the_vehicle s;
        if String.eqb (Vehicle.license_plate (h r)) plate then Ret true
        else plate_scan h plate rest
      else plate_scan h plate rest
  end.

(** [validate_vehicle_entry]: the pair returned (or the exception) and
    the store after the call, [can_re_enter] having possibly reset the
    counter of the vehicle.  [now_peak] and [now_entry] are the readings
    of the peak-hour check and of [can_re_enter]. *)
Definition validate_vehicle_entry (r : ref) (is_ev : bool)
    (now_peak now_entry : datetime) (pl : t) (h : store)
    : py (bool * string) * store :=
  let v := h r in
  if Vehicle.is_suspended v
  then (Ret (false, "Vehicle suspended: " +:+ Vehicle.suspension_reason v), h)
  else if check_peak_hour_restrictions (Vehicle.vehicle_type v) now_peak
  then (Ret (false, "Large vehicles restricted during peak hours"), h)
  else
    let '(ok, v') := Vehicle.can_re_enter now_entry v in
    let h' := store_set r v' h in
    if negb ok then (Ret (false, "Maximum re-entries exceeded"), h')
    else if CustomerType.eqb (Vehicle.customer_type v') CustomerType.REGULAR
    then
      (parked ← plate_scan h' (Vehicle.license_plate v') (slots pl);
       if (parked : bool) then Ret (false, "Vehicle already parked")
       else Ret (true, "Entry allowed"),
       h')
    else (Ret (true, "Entry allowed"), h').

(** The dict returned by [process_vehicle_exit]. *)
Record exit_result := mk_exit {
  success : bool;
  reason : string;
  exit_vehicle : option ref;
  exit_slot : option Slot.t;
  exit_base_fee : Q;
  exit_re_entry_fee : Q;
  exit_total_fee : Q;
  exit_overstay : bool;
  exit_warnings : Z;
  exit_time : option datetime
}.

Definition ticket_not_found : exit_result :=
  mk_exit false "Ticket not found" None None 0%Q 0%Q 0%Q false 0 None.

(** The five readings of the clock during [process_vehicle_exit]: two
    in [calculate_fee], two in [is_expired], one for [exit_time]. *)
Record exit_clock := mk_clock {
  at_fee : datetime;
  at_fee_pass : datetime;
  at_expired_pass : datetime;
  at_expired : datetime;
  at_exit : datetime
}.

Definition process_vehicle_exit (ticket : string) (clk : exit_clock)
    (pl : t) (h : store) : py (exit_result * t * store) :=
  found ← get_slot_by_ticket ticket pl h;
  match found with
  | None => Ret (ticket_not_found, pl, h)
  | Some slot =>
      r ← Slot.the_vehicle slot;
      fee ← Slot.calculate_fee h (at_fee clk) (at_fee_pass clk) slot;
      let re_entry_fee := Vehicle.get_re_entry_fee (h r) in
      let total_fee := (fee + re_entry_fee)%Q in
      is_overstay ← Slot.is_expired h (at_expired_pass clk) (at_expired clk) slot;
      let h1 := if (is_overstay : bool)
                then store_upd r (Vehicle.issue_warning "Overstay violation") h
                else h in
      let exit_time := at_exit clk in
      match Slot.allocation_time slot with
      | None => Exc TypeError
      | Some entry_time =>
          let h2 := store_upd r (Vehicle.add_parking_session
                                   entry_time exit_time (Slot.id slot)) h1 in
          let h3 := store_upd r (fun v => Vehicle.set_total_fees_paid
                                   (Vehicle.total_fees_paid v + total_fee)%Q v) h2 in
          released ← release_slot ticket pl h3;
          Ret (mk_exit true "" (Some r) (fst released) fee re_entry_fee
                       total_fee is_overstay
                       (Vehicle.warnings_issued (h3 r)) (Some exit_time),
               snd released, h3)
      end
  end.

(** The count entries of the dict returned by [get_system_status]
    (['expired_slots'], ['rules'] and ['timestamp'] are left out). *)
Record system_status := mk_status {
  total_slots : nat;
  occupied_slots : nat;
  available_slots : nat;
  available_counts : list (string * list (string * nat))
}.

Definition get_system_status (pl : t) : system_status :=
  let occupied := get_occupied_slots pl in
  let counts := get_available_slots_count pl in
  mk_status (length (slots pl)) (length occupied)
            (length (slots pl) - length occupied)%nat counts.

End ParkingLot.

(** ** The state of the engine and its operations *)

Record State := mkState {
  lot : ParkingLot.t;
  objects : store
}.

(** The engine right after [ParkingLot()], with the vehicle objects the
    caller holds. *)
Definition initial (h : store) : State := mkState ParkingLot.__init__ h.

(** The calls a client of the engine can make.  [Query] stands for the
    read-only methods ([find_slot], [get_slot_by_ticket],
    [get_all_slots], [get_occupied_slots], [get_available_slots_count],
    [get_system_status]); [Caller] for whatever the client does to its
    [Vehicle] objects between two calls (creating them, [record_re_entry],
    [issue_warning], setting [vip_pass_expiry], ...). *)
Inductive op :=
| AllocateSlot (r : ref) (is_ev : bool) (now : datetime)
| ReleaseSlot (ticket : string)
| ProcessVehicleExit (ticket : string) (clk : ParkingLot.exit_clock)
| ValidateVehicleEntry (r : ref) (is_ev : bool) (now_peak now_entry : datetime)
| Query
| Caller (f : store -> store).

(** The state after a call; a call that raises leaves the state as it
    was when the exception left the engine. *)
Definition run (o : op) (st : State) : State :=
  match o with
  | AllocateSlot r is_ev now =>
      let '(_, pl, h) := ParkingLot.allocate_slot r is_ev now (lot st) (objects st) in
      mkState pl h
  | ReleaseSlot ticket =>
      match ParkingLot.release_slot ticket (lot st) (objects st) with
      | Ret (_, pl) => mkState pl (objects st)
      | Exc _ => st
      end
  | ProcessVehicleExit ticket clk =>
      match ParkingLot.process_vehicle_exit ticket clk (lot st) (objects st) with
      | Ret (_, pl, h) => mkState pl h
      | Exc _ => st
      end
  | ValidateVehicleEntry r is_ev now_peak now_entry =>
      mkState (lot st)
              (snd (ParkingLot.validate_vehicle_entry r is_ev now_peak now_entry
                      (lot st) (objects st)))
  | Query => st
  | Caller f => mkState (lot st) (f (objects st))
  end.

(** The states reached from a fresh lot by calls that the discipline
    [allowed] admits in the state they are made in. *)
Inductive reachable_by (allowed : State -> op -> Prop) : State -> Prop :=
| reach_initial h : reachable_by allowed (initial h)
| reach_step st o :
    reachable_by allowed st -> allowed st o -> reachable_by allowed (run o st).

Definition any_call : State -> op -> Prop := fun _ _ => True.

Definition reachable : State -> Prop := reachable_by any_call.

(** The fixed attributes of a slot. *)
Definition skeleton (s : Slot.t) : string * Z * ParkSection.t * VehicleType.t :=
  (Slot.id s, Slot.level s, Slot.section s, Slot.vehicle_type s).

(** [vehicle] is the record bound to [s]: [occupied == (record != null)]. *)
Definition binding_ok (s : Slot.t) : Prop :=
  (Slot.is_occupied s = true ->
     is_Some (Slot.vehicle s) /\ is_Some (Slot.allocation_time s)) /\
  (Slot.is_occupied s = false -> Slot.vehicle s = None).

(** The vehicle object [r] is bound to an occupied slot of [pl]. *)
Definition bound_in (pl : ParkingLot.t) (r : ref) : Prop :=
  exists s, In s (ParkingLot.slots pl) /\
            Slot.is_occupied s = true /\ Slot.vehicle s = Some r.

(** No vehicle object is bound to two occupied slots. *)
Definition record_exclusive (pl : ParkingLot.t) : Prop :=
  forall s1 s2 r,
    In s1 (ParkingLot.slots pl) -> In s2 (ParkingLot.slots pl) ->
    Slot.is_occupied s1 = true -> Slot.vehicle s1 = Some r ->
    Slot.is_occupied s2 = true -> Slot.vehicle s2 = Some r ->
    Slot.id s1 = Slot.id s2.

(** The slot object after a successful [allocate] and after [release]. *)
Definition bind_slot (r : ref) (now : datetime) (s : Slot.t) : Slot.t :=
  Slot.mk (Slot.id s) (Slot.level s) (Slot.section s) (Slot.vehicle_type s)
          (Some r) (Some now) true.

Definition free_slot (s : Slot.t) : Slot.t :=
  Slot.mk (Slot.id s) (Slot.level s) (Slot.section s) (Slot.vehicle_type s)
          None (Slot.allocation_time s) false.

(** The (size, section) partitions of the pool. *)
Definition in_partition (vt : VehicleType.t) (sec : ParkSection.t)
    (s : Slot.t) : bool :=
  VehicleType.eqb (Slot.vehicle_type s) vt && ParkSection.eqb (Slot.section s) sec.

(** The occupied slots ([get_occupied_slots]) of a partition. *)
Definition occupied_count (vt : VehicleType.t) (sec : ParkSection.t)
    (pl : ParkingLot.t) : nat :=
  length (List.filter (in_partition vt sec) (ParkingLot.get_occupied_slots pl)).

(** Slots per size in a section: 15, 10 and 6 on each of the two levels. *)
Definition partition_capacity (sec : ParkSection.t) : nat :=
  match sec with
  | ParkSection.REGULAR => 30
  | ParkSection.VIP => 20
  | ParkSection.EV => 12
  end.

(** The discipline under which a vehicle object handed to
    [allocate_slot] is not bound to an occupied slot at that moment. *)
Definition fresh_allocations (st : State) (o : op) : Prop :=
  match o with
  | AllocateSlot r _ _ => ~ bound_in (lot st) r
  | _ => True
  end.

(** Sequences of [allocate_slot] and [release_slot] calls only. *)
Definition allocate_release_only (st : State) (o : op) : Prop :=
  match o with
  | AllocateSlot _ _ _ | ReleaseSlot _ => True
  | _ => False
  end.

(** A Member's vehicle object, handed to [allocate_slot] twice. *)
Definition member_car : Vehicle.t :=
  Vehicle.__init__ VehicleType.SMALL CustomerType.VIP "KA01VIP" "7F3A9C1E".

Definition twice_allocated : State :=
  run (AllocateSlot 0%nat false (2 * HOUR))
      (run (AllocateSlot 0%nat false HOUR) (initial (fun _ => member_car))).

(** A Standard-tier medium car, parked once. *)
Definition standard_car : Vehicle.t :=
  Vehicle.__init__ VehicleType.MEDIUM CustomerType.REGULAR "KA02STD" "5B20D4A7".

Definition once_allocated : State :=
  run (AllocateSlot 0%nat false 0) (initial (fun _ => standard_car)).

(** The slot the Standard-tier car was given at time 0. *)
Definition standard_slot : Slot.t :=
  bind_slot 0%nat 0 (Slot.__init__ "R1M01" 1 ParkSection.REGULAR VehicleType.MEDIUM).

(** The readings of an exit processed 30 hours after time 0. *)
Definition after_30_hours : ParkingLot.exit_clock :=
  ParkingLot.mk_clock (30 * HOUR) (30 * HOUR) (30 * HOUR) (30 * HOUR) (30 * HOUR).

(** A vehicle that has re-entered three times, the last time at 0. *)
Definition frequent_visitor : Vehicle.t :=
  Vehicle.record_re_entry 0
    (Vehicle.record_re_entry (- HOUR)
       (Vehicle.record_re_entry (- 2 * HOUR)
          (Vehicle.__init__ VehicleType.SMALL CustomerType.REGULAR
                            "KA03RET" "C41D77E0"))).

(** A Member whose pass runs until day 30, parking on day 29. *)
Definition pass_holder : Vehicle.t :=
  Vehicle.set_vip_pass_expiry (Some (timedelta_days 30)) member_car.

Definition parked_on_day_29 : State :=
  run (AllocateSlot 0%nat false (timedelta_days 29))
      (initial (fun _ => pass_holder)).

Definition pass_holder_slot : Slot.t :=
  bind_slot 0%nat (timedelta_days 29)
            (Slot.__init__ "V1S01" 1 ParkSection.VIP VehicleType.SMALL).

(** The pool is the one of the constructor, up to occupancy. *)
Definition fixed_pool (pl : ParkingLot.t) : Prop :=
  map skeleton (ParkingLot.slots pl) = map skeleton (ParkingLot.slots ParkingLot.__init__).

(** A ticket that no occupied slot holds. *)
Definition ticket_unbound (st : State) (ticket : string) : Prop :=
  forall s r, In s (ParkingLot.slots (lot st)) -> Slot.is_occupied s = true ->
              Slot.vehicle s = Some r ->
              Vehicle.ticket_id (objects st r) <> ticket.

(** A pool in which the upper-level slot precedes the ground-level one. *)
Definition upper_first_pool : ParkingLot.t :=
  ParkingLot.mk
    [Slot.__init__ "R2S01" 2 ParkSection.REGULAR VehicleType.SMALL;
     Slot.__init__ "R1S01" 1 ParkSection.REGULAR VehicleType.SMALL]
    ∅.

(** No free slot of size [vt] in section [sec]. *)
Definition section_full (vt : VehicleType.t) (sec : ParkSection.t)
    (pl : ParkingLot.t) : Prop :=
  forall s, In s (ParkingLot.slots pl) ->
            Slot.section s = sec -> Slot.vehicle_type s = vt ->
            Slot.is_occupied s = true.

(** The priority/fallback table of the specification, section 4.1. *)
Definition policy_table (is_ev : bool) (tier : CustomerType.t)
    : list ParkSection.t :=
  match is_ev, tier with
  | true, CustomerType.VIP => [ParkSection.EV; ParkSection.VIP; ParkSection.REGULAR]
  | true, CustomerType.REGULAR => [ParkSection.EV; ParkSection.REGULAR; ParkSection.VIP]
  | false, CustomerType.VIP => [ParkSection.VIP; ParkSection.REGULAR; ParkSection.EV]
  | false, CustomerType.REGULAR => [ParkSection.REGULAR; ParkSection.EV; ParkSection.VIP]
  end.

(** The first answer among those of the sections, in order. *)
Fixpoint first_match (answers : list (option Slot.t)) : option Slot.t :=
  match answers with
  | [] => None
  | Some s :: _ => Some s
  | None :: rest => first_match rest
  end.

(** ** Further operations and inputs *)

(** The levels never go down along the list. *)
Fixpoint ascending (ks : list Z) : bool :=
  match ks with
  | a :: (b :: _) as rest => (a <=? b)%Z && ascending rest
  | _ => true
  end.

(** The minute of the day of a clock reading. *)
Definition minute_of_day (now : datetime) : Z := (now mod DAY) / (60 * SECOND).

(** Both peak periods, in minutes of the day: 09:00-11:00 and 17:00-19:00. *)
Definition in_peak_minutes (m : Z) : bool :=
  ((540 <=? m)%Z && (m <=? 660)%Z) || ((1020 <=? m)%Z && (m <=? 1140)%Z).

(** [strftime('%H:%M')] of a minute of the day. *)
Definition HM_of_minute (m : Z) : string :=
  ParkingLot.fmt_02d (m / 60) +:+ ":" +:+ ParkingLot.fmt_02d (m mod 60).

(** [check_expired_slots]: [clk i] gives the two readings of the clock
    made by [is_expired] on the [i]-th slot of the dict. *)
Fixpoint expired_scan (h : store) (clk : nat -> datetime * datetime)
    (i : nat) (l : list Slot.t) : py (list Slot.t) :=
  match l with
  | [] => Ret []
  | s :: rest =>
      b ← Slot.is_expired h (fst (clk i)) (snd (clk i)) s;
      tl ← expired_scan h clk (S i) rest;
      Ret (if (b : bool) then s :: tl else tl)
  end.

Definition check_expired_slots (clk : nat -> datetime * datetime)
    (pl : ParkingLot.t) (h : store) : py (list Slot.t) :=
  expired_scan h clk 0 (ParkingLot.slots pl).

(** The sum of all entries of the nested dict of counts. *)
Definition sum_counts (counts : list (string * list (string * nat))) : nat :=
  list_sum (map (fun row => list_sum (map snd (snd row))) counts).

(** A second Standard-tier car, held by the caller under reference 1
    next to the first one under reference 0. *)
Definition second_car : Vehicle.t :=
  Vehicle.__init__ VehicleType.SMALL CustomerType.REGULAR "KA09NEW" "A1B2C3D4".

Definition two_car_store : store :=
  fun r => if Nat.eqb r 1 then second_car else standard_car.

(** The first car is parked, the second one is at the gate. *)
Definition parked_with_visitor : State :=
  run (AllocateSlot 0%nat false 0) (initial two_car_store).

(** Both cars are parked. *)
Definition two_cars_parked : State :=
  run (AllocateSlot 1%nat false HOUR) parked_with_visitor.

(** The slot of the second car. *)
Definition second_slot : Slot.t :=
  bind_slot 1%nat HOUR (Slot.__init__ "R1S01" 1 ParkSection.REGULAR VehicleType.SMALL).

(** No occupied slot of the list is bound to [r]. *)
Definition nowhere_bound (r : ref) (l : list Slot.t) : bool :=
  forallb (fun s => negb (Slot.is_occupied s &&
                          match Slot.vehicle s with
                          | Some r' => Nat.eqb r' r
                          | None => false
                          end)) l.

(** A vehicle with two warnings. *)
Definition warned_twice : Vehicle.t :=
  Vehicle.issue_warning "Overstay violation"
    (Vehicle.issue_warning "Overstay violation" standard_car).

(** The exit of the Standard-tier car, 30 hours after its allocation. *)
Definition exit_of_standard_car : ParkingLot.exit_result * ParkingLot.t * store :=
  match ParkingLot.process_vehicle_exit "5B20D4A7" after_30_hours
          (lot once_allocated) (objects once_allocated) with
  | Ret x => x
  | Exc _ => (ParkingLot.ticket_not_found, lot once_allocated, objects once_allocated)
  end.

(** A clock that reads 30 hours at every slot. *)
Definition always_30_hours : nat -> datetime * datetime :=
  fun _ => (30 * HOUR, 30 * HOUR)%Z.

(** * Properties *)

(** ** Equality tests of the enumerations *)

Lemma vehicle_type_eqb_spec a b : VehicleType.eqb a b = true <-> a = b.
Proof. destruct a, b; simpl; split; congruence. Qed.

Lemma customer_type_eqb_spec a b : CustomerType.eqb a b = true <-> a = b.
Proof. destruct a, b; simpl; split; congruence. Qed.

Lemma park_section_eqb_spec a b : ParkSection.eqb a b = true <-> a = b.
Proof. destruct a, b; simpl; split; congruence. Qed.

(** ** The level ordering of [_find_slot_in_section] *)

Section SortByLevel.

Import Slot.

Lemma head_insert_by_level x l :
  head (insert_by_level x l) =
  match head l with
  | None => Some x
  | Some y => if (level x <=? level y)%Z then Some x else Some y
  end.
Proof. destruct l as [|y l]; simpl; [reflexivity|]. now destruct (level x <=? level y)%Z. Qed.

Lemma head_sort_by_level_nil l : head (sort_by_level l) = None -> l = [].
Proof.
  destruct l as [|x l]; [reflexivity|]. simpl. rewrite head_insert_by_level.
  destruct (head (sort_by_level l)) as [y|]; [|discriminate].
  destruct (level x <=? level y)%Z; discriminate.
Qed.

(** The head of the sorted list is an element of lowest level. *)
Lemma head_sort_by_level_min l s :
  head (sort_by_level l) = Some s ->
  In s l /\ forall c, In c l -> (level s <= level c)%Z.
Proof.
  revert s. induction l as [|x l IH]; intros s; simpl; [discriminate|].
  rewrite head_insert_by_level.
  destruct (head (sort_by_level l)) as [y|] eqn:Hy.
  - destruct (IH y eq_refl) as [Hin Hmin].
    destruct (level x <=? level y)%Z eqn:Hle; intros [= <-].
    + apply Z.leb_le in Hle. split; [now left|].
      intros c [<-|Hc]; [lia|]. specialize (Hmin c Hc). lia.
    + apply Z.leb_gt in Hle. split; [now right|].
      intros c [<-|Hc]; [lia|]. now apply Hmin.
  - apply head_sort_by_level_nil in Hy. subst l. intros [= <-].
    split; [now left|]. intros c [<-|[]]. lia.
Qed.

End SortByLevel.

(** ** Searching one section *)

Section FindSlot.

Import ParkingLot.

Variable vt : VehicleType.t.
Variable pl : ParkingLot.t.

Lemma candidate_spec sec s :
  candidate vt sec s = true <->
  Slot.section s = sec /\ Slot.vehicle_type s = vt /\ Slot.is_occupied s = false.
Proof.
  unfold candidate. rewrite !andb_true_iff, negb_true_iff.
  rewrite park_section_eqb_spec, vehicle_type_eqb_spec. tauto.
Qed.

Lemma find_in_section_sorted sec :
  _find_slot_in_section vt sec pl =
  head (Slot.sort_by_level (List.filter (candidate vt sec) (slots pl))).
Proof.
  unfold _find_slot_in_section.
  destruct (List.filter (candidate vt sec) (slots pl)); [reflexivity|].
  now destruct sec.
Qed.

(** What a section answers: a free slot of the size, of lowest level. *)
Lemma find_in_section_some sec s :
  _find_slot_in_section vt sec pl = Some s ->
  In s (slots pl) /\ Slot.section s = sec /\ Slot.vehicle_type s = vt /\
  Slot.is_occupied s = false /\
  forall c, In c (slots pl) -> Slot.section c = sec ->
            Slot.vehicle_type c = vt -> Slot.is_occupied c = false ->
            (Slot.level s <= Slot.level c)%Z.
Proof.
  rewrite find_in_section_sorted. intros H.
  apply head_sort_by_level_min in H. destruct H as [Hin Hmin].
  apply filter_In in Hin. destruct Hin as [Hin Hc].
  apply candidate_spec in Hc. destruct Hc as (Hs & Hv & Ho).
  repeat split; try assumption.
  intros c Hc Hcs Hcv Hco. apply Hmin. apply filter_In. split; [assumption|].
  apply candidate_spec. auto.
Qed.

Lemma find_in_section_none sec :
  _find_slot_in_section vt sec pl = None <-> section_full vt sec pl.
Proof.
  rewrite find_in_section_sorted. split.
  - intros H. apply head_sort_by_level_nil in H.
    intros s Hin Hs Hv. destruct (Slot.is_occupied s) eqn:Ho; [reflexivity|].
    assert (Hf : In s (List.filter (candidate vt sec) (slots pl))).
    { apply filter_In. split; [assumption|]. apply candidate_spec. auto. }
    rewrite H in Hf. destruct Hf.
  - intros Hfull.
    destruct (List.filter (candidate vt sec) (slots pl)) as [|s l] eqn:Hf;
      [reflexivity|].
    assert (Hin : In s (List.filter (candidate vt sec) (slots pl)))
      by (rewrite Hf; now left).
    apply filter_In in Hin. destruct Hin as [Hin Hc].
    apply candidate_spec in Hc. destruct Hc as (Hs & Hv & Ho).
    rewrite (Hfull s Hin Hs Hv) in Ho. discriminate.
Qed.

Lemma search_sections_first_match sections :
  search_sections vt sections pl =
  first_match (map (fun sec => _find_slot_in_section vt sec pl) sections).
Proof.
  induction sections as [|sec rest IH]; simpl; [reflexivity|].
  now destruct (_find_slot_in_section vt sec pl).
Qed.

Lemma first_match_app a b :
  first_match (a ++ b) =
  match first_match a with Some s => Some s | None => first_match b end.
Proof.
  induction a as [|[s|] a IH]; simpl; auto.
Qed.

Lemma find_slot_first_match ct is_ev :
  find_slot vt ct is_ev pl =
  first_match (map (fun sec => _find_slot_in_section vt sec pl)
                   (preferred_sections ct is_ev ++ fallback_sections ct is_ev)).
Proof.
  unfold find_slot. rewrite !search_sections_first_match.
  now rewrite map_app, first_match_app.
Qed.

Lemma sections_follow_table ct is_ev :
  (preferred_sections ct is_ev ++ fallback_sections ct is_ev)%list =
  policy_table is_ev ct.
Proof. now destruct ct, is_ev. Qed.

(** The answer of [first_match] comes from a section all of whose
    predecessors answered [None]. *)
Lemma first_match_some sections s :
  first_match (map (fun sec => _find_slot_in_section vt sec pl) sections) = Some s ->
  exists before sec after,
    sections = (before ++ sec :: after)%list /\
    (forall b, In b before -> section_full vt b pl) /\
    _find_slot_in_section vt sec pl = Some s.
Proof.
  induction sections as [|sec rest IH]; simpl; [discriminate|].
  destruct (_find_slot_in_section vt sec pl) as [s'|] eqn:Hsec.
  - intros [= <-]. exists [], sec, rest. repeat split; auto. intros b [].
  - intros H. destruct (IH H) as (before & sec' & after & -> & Hfull & Hs).
    exists (sec :: before), sec', after. repeat split; auto.
    intros b [<-|Hb]; [now apply find_in_section_none|now apply Hfull].
Qed.

Lemma first_match_none sections :
  first_match (map (fun sec => _find_slot_in_section vt sec pl) sections) = None <->
  forall sec, In sec sections -> section_full vt sec pl.
Proof.
  induction sections as [|sec rest IH]; simpl.
  - split; [intros _ sec []|reflexivity].
  - destruct (_find_slot_in_section vt sec pl) as [s'|] eqn:Hsec.
    + split; [discriminate|]. intros H.
      assert (Hn : _find_slot_in_section vt sec pl = None)
        by (apply find_in_section_none, H; now left).
      congruence.
    + rewrite IH. split.
      * intros H b [<-|Hb]; [now apply find_in_section_none|now apply H].
      * intros H b Hb. apply H. now right.
Qed.

Lemma policy_table_complete is_ev ct sec : In sec (policy_table is_ev ct).
Proof. destruct is_ev, ct, sec; simpl; tauto. Qed.

End FindSlot.

(** ** Allocation policy *)

(** C1. [find_slot] asks the sections in the order of the
    priority/fallback table for its (is_ev, tier) pair and returns the
    answer of the first section that has one: every section before it
    has no free slot of the size, and the slot returned is a free slot
    of that size in that section.  It returns [None] exactly when no
    section holds an unoccupied slot of the requested size. *)
Theorem find_slot_follows_policy_table
    (vt : VehicleType.t) (ct : CustomerType.t) (is_ev : bool)
    (pl : ParkingLot.t) :
  ParkingLot.find_slot vt ct is_ev pl =
    first_match (map (fun sec => ParkingLot._find_slot_in_section vt sec pl)
                     (policy_table is_ev ct))
  /\ (forall s, ParkingLot.find_slot vt ct is_ev pl = Some s ->
        exists before sec after,
          policy_table is_ev ct = (before ++ sec :: after)%list /\
          (forall b, In b before -> section_full vt b pl) /\
          ParkingLot._find_slot_in_section vt sec pl = Some s /\
          In s (ParkingLot.slots pl) /\ Slot.section s = sec /\
          Slot.vehicle_type s = vt /\ Slot.is_occupied s = false)
  /\ (ParkingLot.find_slot vt ct is_ev pl = None <->
      forall s, In s (ParkingLot.slots pl) ->
                Slot.vehicle_type s = vt -> Slot.is_occupied s = true).
Proof.
  rewrite find_slot_first_match, sections_follow_table.
  split; [reflexivity|]. split.
  - intros s H. apply first_match_some in H.
    destruct H as (before & sec & after & Heq & Hfull & Hs).
    exists before, sec, after.
    destruct (find_in_section_some _ _ _ _ Hs) as (Hin & Hsec & Hvt & Hocc & _).
    repeat split; assumption.
  - rewrite first_match_none. split.
    + intros H s Hin Hvt.
      exact (H (Slot.section s) (policy_table_complete _ _ _) s Hin eq_refl Hvt).
    + intros H sec _ s Hin _ Hvt. now apply H.
Qed.

(** Priority correctness (section 8): an EV request of the Standard tier
    is served from the EV section as soon as that section has a free
    slot of the size. *)
Lemma ev_request_gets_ev_slot vt pl :
  ~ section_full vt ParkSection.EV pl ->
  exists s, ParkingLot.find_slot vt CustomerType.REGULAR true pl = Some s /\
            Slot.section s = ParkSection.EV.
Proof.
  intros Hfree. rewrite find_slot_first_match, sections_follow_table. simpl.
  destruct (ParkingLot._find_slot_in_section vt ParkSection.EV pl) as [s|] eqn:H.
  - exists s. split; [reflexivity|]. now apply find_in_section_some in H.
  - apply find_in_section_none in H. contradiction.
Qed.

(** Fallback correctness (section 8): a Member request finding the
    Member section full is served from the Standard section when that
    one has a free slot of the size. *)
Lemma member_request_falls_back vt pl :
  section_full vt ParkSection.VIP pl ->
  ~ section_full vt ParkSection.REGULAR pl ->
  exists s, ParkingLot.find_slot vt CustomerType.VIP false pl = Some s /\
            Slot.section s = ParkSection.REGULAR.
Proof.
  intros Hfull Hfree. rewrite find_slot_first_match, sections_follow_table. simpl.
  apply find_in_section_none in Hfull. rewrite Hfull.
  destruct (ParkingLot._find_slot_in_section vt ParkSection.REGULAR pl) as [s|] eqn:H.
  - exists s. split; [reflexivity|]. now apply find_in_section_some in H.
  - apply find_in_section_none in H. contradiction.
Qed.

(** C8. The slot returned by [find_slot] has the lowest level among the
    unoccupied slots of the requested size in the section it was taken
    from. *)
Theorem find_slot_lowest_level
    (vt : VehicleType.t) (ct : CustomerType.t) (is_ev : bool)
    (pl : ParkingLot.t) (s : Slot.t) :
  ParkingLot.find_slot vt ct is_ev pl = Some s ->
  forall c, In c (ParkingLot.slots pl) ->
            Slot.section c = Slot.section s ->
            Slot.vehicle_type c = vt ->
            Slot.is_occupied c = false ->
            (Slot.level s <= Slot.level c)%Z.
Proof.
  rewrite find_slot_first_match. intros H.
  apply first_match_some in H. destruct H as (_ & sec & _ & _ & _ & Hs).
  destruct (find_in_section_some _ _ _ _ Hs) as (_ & Hsec & _ & _ & Hmin).
  intros c Hin Hcs. apply Hmin; congruence.
Qed.

Lemma find_slot_lowest_level_witness :
  ParkingLot.find_slot VehicleType.SMALL CustomerType.REGULAR false upper_first_pool
    = Some (Slot.__init__ "R1S01" 1 ParkSection.REGULAR VehicleType.SMALL)
  /\ forall c, In c (ParkingLot.slots upper_first_pool) ->
       Slot.section c = ParkSection.REGULAR ->
       Slot.vehicle_type c = VehicleType.SMALL ->
       Slot.is_occupied c = false ->
       (1 <= Slot.level c)%Z.
Proof.
  split; [reflexivity|].
  exact (find_slot_lowest_level VehicleType.SMALL CustomerType.REGULAR false
           upper_first_pool
           (Slot.__init__ "R1S01" 1 ParkSection.REGULAR VehicleType.SMALL)
           eq_refl).
Defined.

(** ** How the operations change the pool *)

Section PoolUpdates.

Import ParkingLot.

Lemma in_unique_id (l : list Slot.t) x y :
  NoDup (map Slot.id l) -> In x l -> In y l -> Slot.id x = Slot.id y -> x = y.
Proof.
  induction l as [|a l IH]; simpl; [tauto|].
  intros Hnd [<-|Hx] [<-|Hy] Hid; auto; inversion_clear Hnd as [|? ? Hnotin Hnd'].
  - exfalso. apply Hnotin, list_elem_of_In. rewrite Hid. now apply in_map.
  - exfalso. apply Hnotin, list_elem_of_In. rewrite <- Hid. now apply in_map.
  - now apply IH.
Qed.

Lemma skeleton_id l : map Slot.id l = map (fun k => fst (fst (fst k))) (map skeleton l).
Proof. rewrite map_map. reflexivity. Qed.

Lemma in_put s' l x :
  In x (put s' l) -> x = s' \/ (In x l /\ Slot.id x <> Slot.id s').
Proof.
  unfold put. rewrite in_map_iff. intros (y & Hy & Hin).
  destruct (String.eqb (Slot.id y) (Slot.id s')) eqn:E.
  - now left.
  - right. subst y. split; [assumption|]. now apply String.eqb_neq.
Qed.

Lemma put_keeps_others s' l x :
  In x l -> Slot.id x <> Slot.id s' -> In x (put s' l).
Proof.
  intros Hin Hid. unfold put. apply in_map_iff. exists x. split; [|assumption].
  apply String.eqb_neq in Hid. now rewrite Hid.
Qed.

Lemma put_skeleton s s' l :
  NoDup (map Slot.id l) -> In s l -> skeleton s' = skeleton s ->
  map skeleton (put s' l) = map skeleton l.
Proof.
  intros Hnd Hin Hsk. unfold put. rewrite map_map. apply map_ext_in.
  intros x Hx. destruct (String.eqb (Slot.id x) (Slot.id s')) eqn:E; [|reflexivity].
  apply String.eqb_eq in E.
  assert (Hid : Slot.id s' = Slot.id s) by (unfold skeleton in Hsk; congruence).
  rewrite (in_unique_id l x s Hnd Hx Hin) by congruence. assumption.
Qed.

Lemma find_slot_in vt ct is_ev pl s :
  find_slot vt ct is_ev pl = Some s ->
  In s (slots pl) /\ Slot.is_occupied s = false.
Proof.
  rewrite find_slot_first_match. intros H.
  apply first_match_some in H. destruct H as (_ & sec & _ & _ & _ & Hs).
  apply find_in_section_some in Hs. tauto.
Qed.

(** What [allocate_slot] does, case by case. *)
Lemma allocate_slot_cases r is_ev now pl h :
  (allocate_slot r is_ev now pl h = (None, pl, h) /\
   find_slot (Vehicle.vehicle_type (h r)) (Vehicle.customer_type (h r)) is_ev pl = None)
  \/
  exists s,
    find_slot (Vehicle.vehicle_type (h r)) (Vehicle.customer_type (h r)) is_ev pl = Some s /\
    In s (slots pl) /\ Slot.is_occupied s = false /\
    allocate_slot r is_ev now pl h =
      (Some (bind_slot r now s),
       mk (put (bind_slot r now s) (slots pl)) (vip_passes pl),
       store_upd r (Vehicle.set_allocation_time (Some now)) h).
Proof.
  unfold allocate_slot.
  destruct (find_slot _ _ is_ev pl) as [s|] eqn:Hf; [right|left; auto].
  destruct (find_slot_in _ _ _ _ _ Hf) as [Hin Hocc].
  exists s. repeat split; try assumption.
  unfold Slot.allocate. rewrite Hocc. cbn zeta.
  replace (Vehicle.allocation_time
             (store_upd r (Vehicle.set_allocation_time (Some now)) h r))
    with (Some now); [reflexivity|].
  unfold store_upd, store_set. rewrite Nat.eqb_refl. now destruct (h r).
Qed.

(** What the scan of [release_slot] does, case by case. *)
Lemma release_scan_cases h ticket l res :
  release_scan h ticket l = Ret res ->
  (res = (None, l) /\ forall x, In x l -> holds_ticket h ticket x = Ret false)
  \/
  exists l1 s l2,
    l = (l1 ++ s :: l2)%list /\
    (forall x, In x l1 -> holds_ticket h ticket x = Ret false) /\
    holds_ticket h ticket s = Ret true /\
    res = (Some (free_slot s), (l1 ++ free_slot s :: l2)%list).
Proof.
  revert res. induction l as [|a l IH]; simpl; intros res.
  - intros [= <-]. left. split; [reflexivity|]. intros x [].
  - destruct (holds_ticket h ticket a) as [[|]|e] eqn:Ha; simpl; [| |discriminate].
    + assert (Hocc : Slot.is_occupied a = true).
      { unfold holds_ticket in Ha. destruct (Slot.is_occupied a); [reflexivity|discriminate]. }
      unfold Slot.release. rewrite Hocc. simpl. intros [= <-].
      right. exists [], a, l. repeat split; auto. intros x [].
    + destruct (release_scan h ticket l) as [res'|e] eqn:Hl; simpl; [|discriminate].
      intros [= <-]. destruct (IH res' eq_refl) as [[-> Hall]|(l1 & s & l2 & -> & Hall & Hs & Hres)].
      * left. split; [reflexivity|]. intros x [<-|Hx]; auto.
      * right. exists (a :: l1), s, l2. subst res'.
        repeat split; auto. intros x [<-|Hx]; auto.
Qed.

Lemma holds_ticket_occupied h ticket s :
  holds_ticket h ticket s = Ret true ->
  Slot.is_occupied s = true /\
  exists r, Slot.vehicle s = Some r /\ Vehicle.ticket_id (h r) = ticket.
Proof.
  unfold holds_ticket, Slot.the_vehicle.
  destruct (Slot.is_occupied s); [|discriminate].
  destruct (Slot.vehicle s) as [r|]; simpl; [|discriminate].
  intros [= H]. apply String.eqb_eq in H. eauto.
Qed.

End PoolUpdates.

(** ** Exit processing *)

Section ExitProcessing.

Import ParkingLot.

Lemma holds_ticket_ext h h' ticket s :
  (forall r, Vehicle.ticket_id (h' r) = Vehicle.ticket_id (h r)) ->
  holds_ticket h' ticket s = holds_ticket h ticket s.
Proof.
  intros H. unfold holds_ticket, Slot.the_vehicle.
  destruct (Slot.is_occupied s); [|reflexivity].
  destruct (Slot.vehicle s); simpl; [now rewrite H|reflexivity].
Qed.

Lemma release_scan_ext h h' ticket l :
  (forall r, Vehicle.ticket_id (h' r) = Vehicle.ticket_id (h r)) ->
  release_scan h' ticket l = release_scan h ticket l.
Proof.
  intros H. induction l as [|a l IH]; simpl; [reflexivity|].
  now rewrite (holds_ticket_ext h h' ticket a H), IH.
Qed.

(** [release_slot] releases the slot that [get_slot_by_ticket] finds. *)
Lemma ticket_scan_some h ticket l s :
  ticket_scan h ticket l = Ret (Some s) ->
  exists l1 l2,
    l = (l1 ++ s :: l2)%list /\
    holds_ticket h ticket s = Ret true /\
    release_scan h ticket l = Ret (Some (free_slot s), (l1 ++ free_slot s :: l2)%list).
Proof.
  induction l as [|a l IH]; simpl; [discriminate|].
  destruct (holds_ticket h ticket a) as [[|]|e] eqn:Ha; simpl; [| |discriminate].
  - intros [= <-]. exists [], l. repeat split; [assumption|].
    apply holds_ticket_occupied in Ha. destruct Ha as [Hocc _].
    unfold Slot.release. now rewrite Hocc.
  - intros H. destruct (IH H) as (l1 & l2 & -> & Hs & Hrel).
    exists (a :: l1), l2. repeat split; [assumption|]. now rewrite Hrel.
Qed.


Lemma store_upd_ticket r f h :
  (forall v, Vehicle.ticket_id (f v) = Vehicle.ticket_id v) ->
  forall r', Vehicle.ticket_id (store_upd r f h r') = Vehicle.ticket_id (h r').
Proof.
  intros Hf r'. unfold store_upd, store_set.
  destruct (Nat.eqb r' r) eqn:E; [|reflexivity].
  apply Nat.eqb_eq in E. subst r'. apply Hf.
Qed.

Lemma issue_warning_ticket reason v :
  Vehicle.ticket_id (Vehicle.issue_warning reason v) = Vehicle.ticket_id v.
Proof.
  unfold Vehicle.issue_warning.
  destruct (3 <=? _)%Z; now destruct v.
Qed.

(** What [process_vehicle_exit] does, case by case. *)
Lemma process_vehicle_exit_cases ticket clk pl h res pl' h' :
  process_vehicle_exit ticket clk pl h = Ret (res, pl', h') ->
  (get_slot_by_ticket ticket pl h = Ret None /\
   res = ticket_not_found /\ pl' = pl /\ h' = h)
  \/
  exists slot r fee l1 l2,
    get_slot_by_ticket ticket pl h = Ret (Some slot) /\
    Slot.is_occupied slot = true /\ Slot.vehicle slot = Some r /\
    Slot.calculate_fee h (at_fee clk) (at_fee_pass clk) slot = Ret fee /\
    slots pl = (l1 ++ slot :: l2)%list /\
    pl' = mk (l1 ++ free_slot slot :: l2) (vip_passes pl) /\
    success res = true /\ exit_base_fee res = fee /\
    exit_slot res = Some (free_slot slot) /\ exit_vehicle res = Some r /\
    exit_total_fee res = (fee + Vehicle.get_re_entry_fee (h r))%Q.
Proof.
  unfold process_vehicle_exit, get_slot_by_ticket.
  destruct (ticket_scan h ticket (slots pl)) as [[slot|]|e] eqn:Hscan; simpl;
    [| intros [= <- <- <-]; left; auto | discriminate].
  destruct (ticket_scan_some _ _ _ _ Hscan) as (l1 & l2 & Hl & Hs & Hrel).
  destruct (holds_ticket_occupied _ _ _ Hs) as (Hocc & r & Hr & _).
  unfold Slot.the_vehicle at 1. rewrite Hr. simpl.
  destruct (Slot.calculate_fee h (at_fee clk) (at_fee_pass clk) slot) as [fee|e] eqn:Hfee;
    simpl; [|discriminate].
  destruct (Slot.is_expired h (at_expired_pass clk) (at_expired clk) slot)
    as [overstay|e] eqn:Hexp; simpl; [|discriminate].
  destruct (Slot.allocation_time slot) as [entry|] eqn:Halloc; [|discriminate].
  unfold release_slot.
  match goal with
  | |- context [release_scan ?h3 ticket (slots pl)] =>
      rewrite (release_scan_ext h h3 ticket (slots pl))
  end.
  - rewrite Hrel. simpl. intros [= <- <- <-]. right.
    exists slot, r, fee, l1, l2. repeat split; auto.
  - intros r'. rewrite !store_upd_ticket.
    + destruct overstay; [|reflexivity].
      apply store_upd_ticket. apply issue_warning_ticket.
    + intros v. now destruct v.
    + intros v. now destruct v.
Qed.

End ExitProcessing.

(** ** Invariants of the reachable states *)

Section Invariants.

Import ParkingLot.

(** Every call leaves the registry alone and either leaves the slots
    as they are, binds one free slot, or frees one occupied slot. *)
Lemma run_pool o st :
  vip_passes (lot (run o st)) = vip_passes (lot st) /\
  (slots (lot (run o st)) = slots (lot st)
   \/ (exists r is_ev now s,
         o = AllocateSlot r is_ev now /\
         In s (slots (lot st)) /\ Slot.is_occupied s = false /\
         slots (lot (run o st)) = put (bind_slot r now s) (slots (lot st)))
   \/ (exists l1 s l2,
         slots (lot st) = (l1 ++ s :: l2)%list /\
         Slot.is_occupied s = true /\
         slots (lot (run o st)) = (l1 ++ free_slot s :: l2)%list)).
Proof.
  destruct o as [r is_ev now|ticket|ticket clk|r is_ev np ne| |f]; simpl;
    try (split; [reflexivity|left; reflexivity]).
  - destruct (allocate_slot_cases r is_ev now (lot st) (objects st))
      as [[-> _]|(s & _ & Hin & Hocc & ->)]; simpl.
    + split; [reflexivity|left; reflexivity].
    + split; [reflexivity|]. right; left. exists r, is_ev, now, s. auto.
  - unfold release_slot.
    destruct (release_scan (objects st) ticket (slots (lot st))) as [res|e] eqn:Hscan;
      simpl; [|split; [reflexivity|left; reflexivity]].
    destruct (release_scan_cases _ _ _ _ Hscan)
      as [[-> _]|(l1 & s & l2 & Hl & _ & Hs & ->)]; simpl.
    + split; [reflexivity|left; reflexivity].
    + split; [reflexivity|]. right; right. exists l1, s, l2.
      apply holds_ticket_occupied in Hs. tauto.
  - destruct (process_vehicle_exit ticket clk (lot st) (objects st))
      as [[[res pl'] h']|e] eqn:Hexit; simpl;
      [|split; [reflexivity|left; reflexivity]].
    destruct (process_vehicle_exit_cases _ _ _ _ _ _ _ Hexit)
      as [(_ & _ & -> & _)|(slot & r & fee & l1 & l2 & _ & Hocc & _ & _ & Hl & -> & _)];
      simpl.
    + split; [reflexivity|left; reflexivity].
    + split; [reflexivity|]. right; right. exists l1, slot, l2. auto.
Qed.

Lemma init_ids_nodup : NoDup (map Slot.id (slots __init__)).
Proof. apply (bool_decide_unpack _). vm_compute. exact I. Qed.

Lemma fixed_pool_nodup pl : fixed_pool pl -> NoDup (map Slot.id (slots pl)).
Proof.
  intros H. rewrite skeleton_id, H, <- skeleton_id. apply init_ids_nodup.
Qed.

Lemma run_fixed_pool o st : fixed_pool (lot st) -> fixed_pool (lot (run o st)).
Proof.
  intros Hfix. unfold fixed_pool in *. rewrite <- Hfix.
  destruct (run_pool o st)
    as [_ [->|[(r & is_ev & now & s & _ & Hin & _ & ->)|(l1 & s & l2 & Hl & _ & ->)]]].
  - reflexivity.
  - apply put_skeleton with (s := s); [now apply fixed_pool_nodup|assumption|reflexivity].
  - rewrite Hl, !map_app. reflexivity.
Qed.

Lemma reachable_fixed_pool allowed st :
  reachable_by allowed st -> fixed_pool (lot st).
Proof.
  induction 1 as [h|st o _ IH _]; [reflexivity|now apply run_fixed_pool].
Qed.

(** Counting: every slot of a partition is occupied or available. *)
Lemma filter_occupied_split (p q : Slot.t -> bool) l :
  (length (List.filter p (List.filter q l)) +
   length (List.filter (fun s => p s && negb (q s)) l))%nat =
  length (List.filter p l).
Proof.
  induction l as [|a l IH]; simpl; [reflexivity|].
  destruct (q a) eqn:Hq, (p a) eqn:Hp; simpl; rewrite ?Hp; simpl; lia.
Qed.

Lemma filter_length_le (p : Slot.t -> bool) l :
  (length (List.filter p l) <= length l)%nat.
Proof. induction l as [|a l IH]; simpl; [lia|]. destruct (p a); simpl; lia. Qed.

Lemma filter_negb_length (p : Slot.t -> bool) l :
  length (List.filter (fun s => negb (p s)) l) =
  (length l - length (List.filter p l))%nat.
Proof.
  induction l as [|a l IH]; simpl; [reflexivity|].
  pose proof (filter_length_le p l). destruct (p a); simpl; lia.
Qed.

(** The size of a partition depends on the fixed attributes only. *)
Lemma partition_size_skeleton vt sec l l' :
  map skeleton l = map skeleton l' ->
  length (List.filter (in_partition vt sec) l) =
  length (List.filter (in_partition vt sec) l').
Proof.
  revert l'. induction l as [|a l IH]; intros [|a' l']; simpl; try discriminate;
    [reflexivity|].
  intros [= Hid Hlvl Hsec Hvt Hrest]. specialize (IH l' Hrest).
  assert (Hp : in_partition vt sec a = in_partition vt sec a')
    by (unfold in_partition; now rewrite Hsec, Hvt).
  rewrite Hp. destruct (in_partition vt sec a'); simpl; auto.
Qed.

Lemma init_partition_size vt sec :
  length (List.filter (in_partition vt sec) (slots __init__)) = partition_capacity sec.
Proof. destruct vt, sec; vm_compute; reflexivity. Qed.

End Invariants.

(** ** Capacity *)

(** C2. In every state reached from a fresh lot by [allocate_slot],
    [release_slot], [process_vehicle_exit], entry validation and
    queries, the slots are the 186 slots of the constructor with their
    id, level, section and size; occupied plus available is the total,
    for the pool as [get_system_status] reports it and for every
    (size, section) partition. *)
Theorem capacity_invariant (st : State) :
  reachable st ->
  map skeleton (ParkingLot.slots (lot st)) =
    map skeleton (ParkingLot.slots ParkingLot.__init__) /\
  (let status := ParkingLot.get_system_status (lot st) in
   ParkingLot.total_slots status = 186%nat /\
   (ParkingLot.occupied_slots status + ParkingLot.available_slots status)%nat =
     ParkingLot.total_slots status /\
   ParkingLot.available_slots status =
     length (List.filter (fun s => negb (Slot.is_occupied s))
                         (ParkingLot.slots (lot st)))) /\
  (forall vt sec,
     (occupied_count vt sec (lot st) +
      ParkingLot.available_count vt sec (lot st))%nat = partition_capacity sec).
Proof.
  intros Hreach. pose proof (reachable_fixed_pool _ _ Hreach) as Hfix.
  assert (Hlen : length (ParkingLot.slots (lot st)) = 186%nat).
  { rewrite <- (length_map skeleton), Hfix. vm_compute. reflexivity. }
  split; [exact Hfix|]. split.
  - simpl. unfold ParkingLot.get_occupied_slots.
    pose proof (filter_length_le Slot.is_occupied (ParkingLot.slots (lot st))).
    rewrite filter_negb_length. repeat split; lia.
  - intros vt sec. unfold occupied_count, ParkingLot.available_count,
      ParkingLot.get_occupied_slots.
    change (fun s => VehicleType.eqb (Slot.vehicle_type s) vt &&
                     ParkSection.eqb (Slot.section s) sec &&
                     negb (Slot.is_occupied s))
      with (fun s => in_partition vt sec s && negb (Slot.is_occupied s)).
    rewrite filter_occupied_split.
    rewrite (partition_size_skeleton vt sec _ _ Hfix).
    apply init_partition_size.
Qed.

Lemma capacity_invariant_witness :
  reachable once_allocated /\
  ParkingLot.occupied_slots (ParkingLot.get_system_status (lot once_allocated)) = 1%nat /\
  (occupied_count VehicleType.MEDIUM ParkSection.REGULAR (lot once_allocated) +
   ParkingLot.available_count VehicleType.MEDIUM ParkSection.REGULAR
     (lot once_allocated))%nat = 30%nat.
Proof.
  assert (Hreach : reachable once_allocated).
  { apply (reach_step any_call (initial (fun _ => standard_car))
             (AllocateSlot 0%nat false 0)); [apply reach_initial|exact I]. }
  split; [exact Hreach|]. split; [vm_compute; reflexivity|].
  exact (proj2 (proj2 (capacity_invariant once_allocated Hreach))
           VehicleType.MEDIUM ParkSection.REGULAR).
Defined.

(** ** Exclusivity *)

Section Exclusivity.

Import ParkingLot.

Lemma initial_unoccupied s : In s (slots __init__) -> Slot.is_occupied s = false.
Proof.
  intros Hin. apply (in_map Slot.is_occupied) in Hin. revert Hin.
  generalize (Slot.is_occupied s). intros b Hb.
  assert (Hall : forallb negb (map Slot.is_occupied (slots __init__)) = true)
    by (vm_compute; reflexivity).
  rewrite forallb_forall in Hall. apply Hall in Hb. now destruct b.
Qed.

Lemma initial_unbound s : In s (slots __init__) -> Slot.vehicle s = None.
Proof.
  intros Hin. apply (in_map Slot.vehicle) in Hin. revert Hin.
  generalize (Slot.vehicle s). intros o Ho.
  assert (Hall : forallb (fun o : option ref => match o with None => true | _ => false end)
                         (map Slot.vehicle (slots __init__)) = true)
    by (vm_compute; reflexivity).
  rewrite forallb_forall in Hall. apply Hall in Ho. now destruct o.
Qed.

Lemma binding_ok_bind r now s : binding_ok (bind_slot r now s).
Proof. split; simpl; [intros _; split; eauto|discriminate]. Qed.

Lemma binding_ok_free s : binding_ok (free_slot s).
Proof. split; simpl; [discriminate|reflexivity]. Qed.

Lemma run_binding_ok o st :
  (forall s, In s (slots (lot st)) -> binding_ok s) ->
  forall s, In s (slots (lot (run o st))) -> binding_ok s.
Proof.
  intros Hok s.
  destruct (run_pool o st)
    as [_ [->|[(r & is_ev & now & s0 & _ & _ & _ & ->)|(l1 & s0 & l2 & Hl & _ & ->)]]].
  - apply Hok.
  - intros Hin. apply in_put in Hin. destruct Hin as [->|[Hin _]];
      [apply binding_ok_bind|now apply Hok].
  - rewrite Hl in Hok. intros Hin. apply in_app_or in Hin.
    destruct Hin as [Hin|[<-|Hin]].
    + apply Hok, in_or_app. now left.
    + apply binding_ok_free.
    + apply Hok, in_or_app. right. now right.
Qed.

Lemma reachable_binding_ok allowed st :
  reachable_by allowed st -> forall s, In s (slots (lot st)) -> binding_ok s.
Proof.
  induction 1 as [h|st o _ IH _].
  - intros s Hin. split; intros H.
    + rewrite (initial_unoccupied s Hin) in H. discriminate.
    + now apply initial_unbound.
  - now apply run_binding_ok.
Qed.

Lemma run_record_exclusive o st :
  fixed_pool (lot st) -> fresh_allocations st o ->
  record_exclusive (lot st) -> record_exclusive (lot (run o st)).
Proof.
  intros Hfix Hfresh Hex. unfold record_exclusive.
  destruct (run_pool o st)
    as [_ [->|[(r & is_ev & now & s0 & -> & _ & _ & ->)|(l1 & s0 & l2 & Hl & _ & ->)]]].
  - exact Hex.
  - simpl in Hfresh. intros s1 s2 r' H1 H2 Ho1 Hv1 Ho2 Hv2.
    apply in_put in H1. apply in_put in H2.
    destruct H1 as [->|[H1 _]], H2 as [->|[H2 _]].
    + reflexivity.
    + exfalso. apply Hfresh. exists s2. simpl in Hv1. split; [assumption|].
      split; [assumption|congruence].
    + exfalso. apply Hfresh. exists s1. simpl in Hv2. split; [assumption|].
      split; [assumption|congruence].
    + now apply (Hex s1 s2 r').
  - assert (Hold : forall x, In x (l1 ++ free_slot s0 :: l2)%list ->
                             Slot.is_occupied x = true -> In x (slots (lot st))).
    { intros x Hin Hocc. rewrite Hl. apply in_or_app. apply in_app_or in Hin.
      destruct Hin as [Hin|[<-|Hin]]; [now left|discriminate|right; now right]. }
    intros s1 s2 r' H1 H2 Ho1 Hv1 Ho2 Hv2.
    apply (Hex s1 s2 r'); auto.
Qed.

(** [allocate_slot] does not touch a slot that is occupied. *)
Lemma allocate_keeps_occupied r is_ev now st s :
  fixed_pool (lot st) -> In s (slots (lot st)) -> Slot.is_occupied s = true ->
  In s (slots (lot (run (AllocateSlot r is_ev now) st))).
Proof.
  intros Hfix Hin Hocc. simpl.
  destruct (allocate_slot_cases r is_ev now (lot st) (objects st))
    as [[-> _]|(s0 & _ & Hin0 & Hocc0 & ->)]; simpl; [assumption|].
  apply put_keeps_others; [assumption|]. simpl. intros Hid.
  rewrite (in_unique_id _ s s0 (fixed_pool_nodup _ Hfix) Hin Hin0 Hid) in Hocc.
  congruence.
Qed.

End Exclusivity.

(** C3, as the code has it.  At every reachable state a slot holds one
    record when occupied and none otherwise, and [allocate_slot] leaves
    every occupied slot, with its record, as it is.  No record is bound
    to two occupied slots when the state was reached by calls in which
    no [allocate_slot] was given a vehicle object still bound to an
    occupied slot. *)
Theorem exclusive_binding (st : State) :
  reachable st ->
  (forall s, In s (ParkingLot.slots (lot st)) -> binding_ok s) /\
  (forall r is_ev now s,
     In s (ParkingLot.slots (lot st)) -> Slot.is_occupied s = true ->
     In s (ParkingLot.slots (lot (run (AllocateSlot r is_ev now) st)))) /\
  (reachable_by fresh_allocations st -> record_exclusive (lot st)).
Proof.
  intros Hreach. split; [exact (reachable_binding_ok _ _ Hreach)|]. split.
  - intros r is_ev now s. apply allocate_keeps_occupied.
    exact (reachable_fixed_pool _ _ Hreach).
  - clear Hreach. intros Hfresh.
    induction Hfresh as [h|st o Hfresh IH Hallowed].
    + intros s1 s2 r Hin1 _ Hocc1. simpl in Hin1.
      rewrite (initial_unoccupied s1 Hin1) in Hocc1. discriminate.
    + apply run_record_exclusive; auto. exact (reachable_fixed_pool _ _ Hfresh).
Qed.

Lemma nowhere_bound_spec r pl :
  nowhere_bound r (ParkingLot.slots pl) = true -> ~ bound_in pl r.
Proof.
  intros Hall (s & Hin & Hocc & Hv). unfold nowhere_bound in Hall.
  rewrite forallb_forall in Hall. specialize (Hall s Hin).
  rewrite Hocc, Hv, Nat.eqb_refl in Hall. discriminate.
Qed.

(** Two cars in two slots, each allocation given a car that was not
    parked; and the state in which one car was allocated twice. *)
Lemma exclusive_binding_witness :
  reachable_by fresh_allocations two_cars_parked /\
  In standard_slot (ParkingLot.slots (lot two_cars_parked)) /\
  In second_slot (ParkingLot.slots (lot two_cars_parked)) /\
  record_exclusive (lot two_cars_parked) /\
  (forall s, In s (ParkingLot.slots (lot two_cars_parked)) -> binding_ok s) /\
  (forall s, In s (ParkingLot.slots (lot twice_allocated)) -> binding_ok s).
Proof.
  assert (Hfresh : reachable_by fresh_allocations two_cars_parked).
  { unfold two_cars_parked, parked_with_visitor.
    apply reach_step; [apply reach_step; [apply reach_initial|]|].
    - apply nowhere_bound_spec. vm_compute. reflexivity.
    - apply nowhere_bound_spec. vm_compute. reflexivity. }
  assert (Hreach : reachable two_cars_parked).
  { unfold two_cars_parked, parked_with_visitor.
    repeat (apply reach_step; [|exact I]). apply reach_initial. }
  assert (Htwice : reachable twice_allocated).
  { unfold twice_allocated. repeat (apply reach_step; [|exact I]). apply reach_initial. }
  split; [exact Hfresh|].
  split; [apply (nth_error_In _ 15); vm_compute; reflexivity|].
  split; [apply (nth_error_In _ 0); vm_compute; reflexivity|].
  split; [exact (proj2 (proj2 (exclusive_binding two_cars_parked Hreach)) Hfresh)|].
  split; [exact (proj1 (exclusive_binding two_cars_parked Hreach))|].
  exact (proj1 (exclusive_binding twice_allocated Htwice)).
Defined.

(** C3, as stated, fails: [allocate_slot] does not look whether the
    vehicle object it is given is already parked.  Two calls with the
    same object bind it to the slots V1S01 and V1S02 at once. *)
Lemma one_record_in_two_slots :
  reachable_by allocate_release_only twice_allocated /\
  ~ record_exclusive (lot twice_allocated).
Proof.
  split.
  - unfold twice_allocated. repeat (apply reach_step; [|exact I]).
    apply reach_initial.
  - intros Hex.
    pose (s1 := Slot.mk "V1S01" 1 ParkSection.VIP VehicleType.SMALL
                        (Some 0%nat) (Some HOUR) true).
    pose (s2 := Slot.mk "V1S02" 1 ParkSection.VIP VehicleType.SMALL
                        (Some 0%nat) (Some (2 * HOUR)%Z) true).
    assert (H1 : In s1 (ParkingLot.slots (lot twice_allocated)))
      by (apply (nth_error_In _ 45); vm_compute; reflexivity).
    assert (H2 : In s2 (ParkingLot.slots (lot twice_allocated)))
      by (apply (nth_error_In _ 46); vm_compute; reflexivity).
    specialize (Hex s1 s2 0%nat H1 H2 eq_refl eq_refl eq_refl eq_refl).
    discriminate Hex.
Qed.

(** ** Fees *)

(** C4, as stated, fails: the days are not rounded up.  Thirty hours
    are 1.25 days, so the fee is 125 + 150 = 275 and not 350. *)
Lemma scenario_c_fee_is_not_350 :
  In standard_slot (ParkingLot.slots (lot once_allocated)) /\
  exists fee,
    Slot.calculate_fee (objects once_allocated) (30 * HOUR) (30 * HOUR)
                       standard_slot = Ret fee /\
    ~ (fee == 100 * 2 + py_min (6 * 25) 500)%Q.
Proof.
  split; [apply (nth_error_In _ 15); vm_compute; reflexivity|].
  exists 275%Q. split; [vm_compute; reflexivity|].
  vm_compute. discriminate.
Qed.

(** C4, as the code has it.  For a Standard-tier Medium vehicle, 30
    hours after its allocation, [calculate_fee] returns the daily rate
    times the 1.25 days elapsed (a fraction, at least one day) plus the
    overstay penalty min(6 x 25, 500): 125 + 150 = 275. *)
Theorem fee_after_30_hours (h : store) (s : Slot.t) (r : ref)
    (allocated now now_pass : datetime) :
  Slot.is_occupied s = true ->
  Slot.allocation_time s = Some allocated ->
  Slot.vehicle s = Some r ->
  Vehicle.customer_type (h r) = CustomerType.REGULAR ->
  Vehicle.vehicle_type (h r) = VehicleType.MEDIUM ->
  (now - allocated = 30 * HOUR)%Z ->
  Slot.calculate_fee h now now_pass s = Ret 275%Q /\
  (275 == ParkingRules.DAILY_RATES VehicleType.MEDIUM * (30 # 24) +
          py_min (6 * ParkingRules.penalty_per_hour)
                 ParkingRules.max_overstay_penalty)%Q.
Proof.
  intros Hocc Halloc Hr Hct Hvt Hdur. split; [|vm_compute; reflexivity].
  unfold Slot.calculate_fee, Slot.the_vehicle. rewrite Hocc, Halloc, Hr. simpl.
  unfold Slot.base_fee, Slot.overstay_penalty, Slot.pass_active.
  rewrite Hct, Hvt, Hdur. vm_compute. reflexivity.
Qed.

Lemma fee_after_30_hours_witness :
  Slot.calculate_fee (objects once_allocated) (30 * HOUR) (30 * HOUR)
                     standard_slot = Ret 275%Q.
Proof.
  exact (proj1 (fee_after_30_hours (objects once_allocated) standard_slot 0%nat
                  0 (30 * HOUR) (30 * HOUR)
                  eq_refl eq_refl eq_refl eq_refl eq_refl eq_refl)).
Defined.

(** C7, as stated, fails: the pass is tested when the fee is computed,
    not when the slot was allocated.  A Member who parks on day 29 of a
    pass that ends on day 30 and leaves on day 31 pays the membership
    rate. *)
Lemma lapsed_pass_is_charged :
  Slot.pass_active pass_holder (timedelta_days 29) = true /\
  In pass_holder_slot (ParkingLot.slots (lot parked_on_day_29)) /\
  exists fee,
    Slot.calculate_fee (objects parked_on_day_29)
                       (timedelta_days 31) (timedelta_days 31)
                       pass_holder_slot = Ret fee /\
    (fee == 1050)%Q /\ ~ (fee == 0)%Q.
Proof.
  split; [vm_compute; reflexivity|].
  split; [apply (nth_error_In _ 45); vm_compute; reflexivity|].
  exists 1050%Q. split; [vm_compute; reflexivity|].
  split; [reflexivity|discriminate].
Qed.

(** C7, as the code has it.  For an occupied slot of a Member-tier
    vehicle whose pass is still active when the fee is computed, the
    base fee is 0: [calculate_fee] returns the overstay penalty alone,
    which is 0 as long as the stay does not exceed the 720 hours of the
    tier. *)
Theorem active_pass_base_fee_zero (h : store) (s : Slot.t) (r : ref)
    (allocated expiry now now_pass : datetime) :
  Slot.is_occupied s = true ->
  Slot.allocation_time s = Some allocated ->
  Slot.vehicle s = Some r ->
  Vehicle.customer_type (h r) = CustomerType.VIP ->
  Vehicle.vip_pass_expiry (h r) = Some expiry ->
  (now_pass < expiry)%Z ->
  Slot.base_fee (h r) (now - allocated) now_pass = 0%Q /\
  Slot.calculate_fee h now now_pass s =
    Ret (round2 (0 + Slot.overstay_penalty (h r) (now - allocated))) /\
  ((now - allocated <= timedelta_hours 720)%Z ->
   Slot.calculate_fee h now now_pass s = Ret 0%Q).
Proof.
  intros Hocc Halloc Hr Hct Hexp Hlt.
  assert (Hactive : Slot.pass_active (h r) now_pass = true).
  { unfold Slot.pass_active. rewrite Hct, Hexp. simpl. now apply Z.ltb_lt. }
  assert (Hbase : Slot.base_fee (h r) (now - allocated) now_pass = 0%Q).
  { unfold Slot.base_fee. now rewrite Hactive. }
  assert (Hfee : Slot.calculate_fee h now now_pass s =
                 Ret (round2 (0 + Slot.overstay_penalty (h r) (now - allocated)))).
  { unfold Slot.calculate_fee, Slot.the_vehicle. rewrite Hocc, Halloc, Hr. simpl.
    now rewrite Hbase. }
  repeat split; try assumption.
  intros Hshort. rewrite Hfee. unfold Slot.overstay_penalty. rewrite Hct.
  cbv zeta. change (ParkingRules.TIME_LIMITS CustomerType.VIP) with 720%Z.
  apply Z.ltb_ge in Hshort. rewrite Hshort. reflexivity.
Qed.

Lemma active_pass_base_fee_zero_witness :
  Slot.calculate_fee (objects parked_on_day_29)
                     (timedelta_days 29 + 12 * HOUR) (timedelta_days 29 + 12 * HOUR)
                     pass_holder_slot = Ret 0%Q.
Proof.
  refine (proj2 (proj2 (active_pass_base_fee_zero (objects parked_on_day_29)
                          pass_holder_slot 0%nat (timedelta_days 29)
                          (timedelta_days 30)
                          (timedelta_days 29 + 12 * HOUR)
                          (timedelta_days 29 + 12 * HOUR)
                          eq_refl eq_refl eq_refl eq_refl eq_refl _)) _);
    vm_compute; congruence.
Defined.

(** ** Re-entry *)

(** Once the counter has reached the maximum, [can_re_enter] answers
    [False] before it looks at the window: nothing is reset. *)
Lemma can_re_enter_at_maximum now v :
  (ParkingRules.max_re_entries <= Vehicle.re_entry_count v)%Z ->
  Vehicle.can_re_enter now v = (false, v).
Proof.
  intros H. unfold Vehicle.can_re_enter.
  apply Z.leb_le in H. now rewrite H.
Qed.

(** Below the maximum, the counter is reset once the window is over. *)
Lemma can_re_enter_resets_below_maximum now last v :
  (Vehicle.re_entry_count v < ParkingRules.max_re_entries)%Z ->
  Vehicle.last_re_entry v = Some last ->
  (24 * HOUR < now - last)%Z ->
  Vehicle.re_entry_count (snd (Vehicle.can_re_enter now v)) = 0%Z.
Proof.
  intros Hcount Hlast Hwindow. unfold Vehicle.can_re_enter.
  apply Z.leb_gt in Hcount. rewrite Hcount, Hlast.
  assert (Hgt : Vehicle.Qgtb (total_seconds (now - last) / 3600)
                             ParkingRules.re_entry_window = true).
  { unfold Vehicle.Qgtb. apply negb_true_iff.
    destruct (Qle_bool _ _) eqn:Hle; [|reflexivity]. exfalso.
    apply Qle_bool_iff in Hle. unfold Qle, total_seconds in Hle.
    simpl in Hle. unfold HOUR, SECOND in Hwindow. lia. }
  rewrite Hgt. simpl. now destruct v.
Qed.

(** C5 at a vehicle that re-entered three times, the last time 25 hours
    ago: the window of 24 hours is over, yet [can_re_enter] answers
    [False] and leaves the counter at 3, and [validate_vehicle_entry]
    denies the entry with "Maximum re-entries exceeded". *)
Theorem can_re_enter_denies_after_window :
  Vehicle.re_entry_count frequent_visitor = 3%Z /\
  Vehicle.last_re_entry frequent_visitor = Some 0%Z /\
  Vehicle.is_suspended frequent_visitor = false /\
  Vehicle.Qgtb (total_seconds (25 * HOUR - 0) / 3600)
               ParkingRules.re_entry_window = true /\
  Vehicle.can_re_enter (25 * HOUR) frequent_visitor = (false, frequent_visitor) /\
  (let '(answer, h) :=
     ParkingLot.validate_vehicle_entry 0%nat false (25 * HOUR) (25 * HOUR)
       ParkingLot.__init__ (fun _ => frequent_visitor) in
   answer = Ret (false, "Maximum re-entries exceeded") /\
   Vehicle.re_entry_count (h 0%nat) = 3%Z).
Proof. vm_compute. repeat split. Qed.

(** ** The pass registry *)

(** C6, as stated, fails: after a successful Member-tier allocation for
    a plate without a pass the registry still has no entry for it. *)
Lemma member_allocation_registers_no_pass :
  let '(slot, pl, h) :=
    ParkingLot.allocate_slot 0%nat false HOUR ParkingLot.__init__
                             (fun _ => member_car) in
  Vehicle.customer_type member_car = CustomerType.VIP /\
  ParkingLot.vip_passes ParkingLot.__init__ !! Vehicle.license_plate member_car = None /\
  is_Some slot /\
  ParkingLot.vip_passes pl !! Vehicle.license_plate member_car
    <> Some (HOUR + timedelta_days 30)%Z.
Proof.
  destruct (allocate_slot_cases 0%nat false HOUR ParkingLot.__init__
              (fun _ => member_car)) as [[_ Hnone]|(s & _ & _ & _ & ->)].
  - vm_compute in Hnone. discriminate.
  - simpl. repeat split; eauto.
Qed.

(** C6, as the code has it.  No call of the engine writes the registry:
    [allocate_slot] (a successful Member-tier allocation included),
    [release_slot], [process_vehicle_exit] and the entry validation
    leave [vip_passes] as it was, so no entry is ever removed; in a lot
    driven through these calls alone it stays empty. *)
Theorem engine_never_writes_vip_passes :
  (forall st o,
     ParkingLot.vip_passes (lot (run o st)) = ParkingLot.vip_passes (lot st)) /\
  (forall r is_ev now pl h,
     ParkingLot.vip_passes (snd (fst (ParkingLot.allocate_slot r is_ev now pl h)))
     = ParkingLot.vip_passes pl) /\
  (forall st, reachable st -> ParkingLot.vip_passes (lot st) = ∅).
Proof.
  split; [intros st o; exact (proj1 (run_pool o st))|]. split.
  - intros r is_ev now pl h.
    destruct (allocate_slot_cases r is_ev now pl h) as [[-> _]|(s & _ & _ & _ & ->)];
      reflexivity.
  - induction 1 as [h|st o _ IH _]; [reflexivity|].
    now rewrite (proj1 (run_pool o st)).
Qed.

(** ** Release *)

Section Release.

Import ParkingLot.

Lemma holds_ticket_false h ticket s :
  binding_ok s ->
  (forall r, Slot.is_occupied s = true -> Slot.vehicle s = Some r ->
             Vehicle.ticket_id (h r) <> ticket) ->
  holds_ticket h ticket s = Ret false.
Proof.
  intros [Hocc _] Hne. unfold holds_ticket, Slot.the_vehicle.
  destruct (Slot.is_occupied s) eqn:E; [|reflexivity].
  destruct (Hocc eq_refl) as [[r Hr] _]. rewrite Hr. simpl.
  specialize (Hne r eq_refl Hr). apply String.eqb_neq in Hne. now rewrite Hne.
Qed.

Lemma release_scan_no_match h ticket l :
  (forall s, In s l -> holds_ticket h ticket s = Ret false) ->
  release_scan h ticket l = Ret (None, l).
Proof.
  induction l as [|a l IH]; simpl; intros H; [reflexivity|].
  rewrite (H a (or_introl eq_refl)). simpl.
  rewrite IH by (intros s Hs; apply H; now right). reflexivity.
Qed.

(** Releasing a ticket a second time finds nothing, when the tickets of
    the occupied slots are pairwise distinct. *)
Lemma second_release_not_found h ticket pl s pl' :
  NoDup (map Slot.id (slots pl)) ->
  (forall x, In x (slots pl) -> binding_ok x) ->
  (forall x y, In x (slots pl) -> In y (slots pl) ->
               holds_ticket h ticket x = Ret true ->
               holds_ticket h ticket y = Ret true -> Slot.id x = Slot.id y) ->
  release_slot ticket pl h = Ret (Some s, pl') ->
  release_slot ticket pl' h = Ret (None, pl').
Proof.
  intros Hnd Hok Huniq. unfold release_slot.
  destruct (release_scan h ticket (slots pl)) as [res|e] eqn:Hscan; simpl;
    [|discriminate].
  destruct (release_scan_cases _ _ _ _ Hscan)
    as [[-> _]|(l1 & s0 & l2 & Hl & Hl1 & Hs0 & ->)]; simpl; [discriminate|].
  intros [= <- <-]. simpl. rewrite release_scan_no_match; [reflexivity|].
  intros x Hx. apply in_app_or in Hx. destruct Hx as [Hx|[<-|Hx]].
  - now apply Hl1.
  - reflexivity.
  - assert (Hin : In x (slots pl)) by (rewrite Hl; apply in_or_app; right; now right).
    assert (Hin0 : In s0 (slots pl)) by (rewrite Hl; apply in_or_app; right; now left).
    destruct (holds_ticket h ticket x) as [[|]|e] eqn:Hh; [|reflexivity|].
    + exfalso. pose proof (Huniq x s0 Hin Hin0 Hh Hs0) as Hid.
      rewrite Hl, map_app in Hnd. apply NoDup_app in Hnd.
      destruct Hnd as (_ & _ & Hnd). simpl in Hnd. apply NoDup_cons in Hnd.
      destruct Hnd as [Hnotin _]. apply Hnotin, list_elem_of_In.
      rewrite <- Hid. now apply in_map.
    + exfalso. unfold holds_ticket, Slot.the_vehicle in Hh.
      destruct (Hok x Hin) as [Hocc _].
      destruct (Slot.is_occupied x); [|discriminate].
      destruct (Hocc eq_refl) as [[r Hr] _]. rewrite Hr in Hh. discriminate.
Qed.

End Release.

(** C9. For a ticket that is bound to no occupied slot, [release_slot]
    returns [None] and changes nothing: the slots, the vehicle objects
    and the pass registry are what they were. *)
Theorem release_unbound_ticket (st : State) (ticket : string) :
  (forall s, In s (ParkingLot.slots (lot st)) -> binding_ok s) ->
  ticket_unbound st ticket ->
  ParkingLot.release_slot ticket (lot st) (objects st) = Ret (None, lot st) /\
  run (ReleaseSlot ticket) st = st.
Proof.
  intros Hok Hunbound.
  assert (H : ParkingLot.release_slot ticket (lot st) (objects st) = Ret (None, lot st)).
  { unfold ParkingLot.release_slot. rewrite release_scan_no_match.
    - simpl. now destruct (lot st).
    - intros s Hin. apply holds_ticket_false; [now apply Hok|].
      intros r Hocc Hr. exact (Hunbound s r Hin Hocc Hr). }
  split; [exact H|]. simpl. rewrite H. now destruct st.
Qed.

Lemma release_unbound_ticket_witness :
  run (ReleaseSlot "00000000") once_allocated = once_allocated.
Proof.
  refine (proj2 (release_unbound_ticket once_allocated "00000000" _ _)).
  - apply (reachable_binding_ok any_call).
    apply (reach_step any_call (initial (fun _ => standard_car))
             (AllocateSlot 0%nat false 0)); [apply reach_initial|exact I].
  - intros s r _ _ _. simpl. unfold store_upd, store_set.
    destruct (Nat.eqb r 0); vm_compute; discriminate.
Defined.

(** When the lookup finds a slot that has its allocation time, the exit
    goes through: the result carries the fee of the slot as found. *)
Lemma process_vehicle_exit_succeeds ticket clk pl h slot :
  ParkingLot.get_slot_by_ticket ticket pl h = Ret (Some slot) ->
  is_Some (Slot.allocation_time slot) ->
  exists res pl' h' fee l1 l2,
    ParkingLot.process_vehicle_exit ticket clk pl h = Ret (res, pl', h') /\
    Slot.is_occupied slot = true /\
    Slot.calculate_fee h (ParkingLot.at_fee clk) (ParkingLot.at_fee_pass clk) slot
      = Ret fee /\
    ParkingLot.success res = true /\
    ParkingLot.exit_base_fee res = fee /\
    ParkingLot.exit_slot res = Some (free_slot slot) /\
    ParkingLot.slots pl = (l1 ++ slot :: l2)%list /\
    ParkingLot.slots pl' = (l1 ++ free_slot slot :: l2)%list.
Proof.
  unfold ParkingLot.get_slot_by_ticket. intros Hscan [entry Halloc].
  destruct (ticket_scan_some _ _ _ _ Hscan) as (l1 & l2 & Hl & Hs & Hrel).
  destruct (holds_ticket_occupied _ _ _ Hs) as (Hocc & r & Hr & _).
  assert (Hfee : exists fee,
             Slot.calculate_fee h (ParkingLot.at_fee clk) (ParkingLot.at_fee_pass clk) slot
             = Ret fee).
  { unfold Slot.calculate_fee, Slot.the_vehicle. rewrite Hocc, Halloc, Hr. simpl. eauto. }
  destruct Hfee as [fee Hfee].
  assert (Hexp : exists b,
             Slot.is_expired h (ParkingLot.at_expired_pass clk) (ParkingLot.at_expired clk) slot
             = Ret b).
  { unfold Slot.is_expired, Slot.the_vehicle. rewrite Hocc, Halloc, Hr. simpl.
    destruct (Slot.pass_active _ _); eauto. }
  destruct Hexp as [overstay Hexp].
  unfold ParkingLot.process_vehicle_exit, ParkingLot.get_slot_by_ticket.
  rewrite Hscan. simpl. unfold Slot.the_vehicle at 1. rewrite Hr. simpl.
  rewrite Hfee. simpl. rewrite Hexp. simpl. rewrite Halloc.
  unfold ParkingLot.release_slot.
  match goal with
  | |- context [ParkingLot.release_scan ?h3 ticket (ParkingLot.slots pl)] =>
      rewrite (release_scan_ext h h3 ticket (ParkingLot.slots pl))
  end.
  - rewrite Hrel. simpl. do 6 eexists. split; [reflexivity|]. simpl.
    repeat split; auto.
  - intros r'. rewrite !store_upd_ticket.
    + destruct overstay; [|reflexivity].
      apply store_upd_ticket. apply issue_warning_ticket.
    + intros v. now destruct v.
    + intros v. now destruct v.
Qed.

(** C10. [calculate_fee] returns 0 for a slot that is not occupied or
    has no allocation time; [release] keeps the allocation time and
    clears the occupied flag, so the fee of a released slot is 0.
    [process_vehicle_exit] computes the fee before it releases: for a
    ticket that the lookup finds it succeeds, and the base fee in its
    result is the fee of the slot as it was found, still occupied,
    while the slot it returns, released with its allocation time kept,
    has fee 0.  Conversely every successful exit is of that kind. *)
Theorem fee_only_before_release :
  (forall h now now_pass s,
     Slot.is_occupied s = false \/ Slot.allocation_time s = None ->
     Slot.calculate_fee h now now_pass s = Ret 0%Q) /\
  (forall s,
     Slot.is_occupied s = true ->
     Slot.allocation_time (snd (Slot.release s)) = Slot.allocation_time s /\
     Slot.is_occupied (snd (Slot.release s)) = false /\
     forall h now now_pass,
       Slot.calculate_fee h now now_pass (snd (Slot.release s)) = Ret 0%Q) /\
  (forall ticket clk pl h res pl' h',
     ParkingLot.process_vehicle_exit ticket clk pl h = Ret (res, pl', h') ->
     ParkingLot.success res = true ->
     exists slot,
       ParkingLot.get_slot_by_ticket ticket pl h = Ret (Some slot) /\
       Slot.is_occupied slot = true /\
       Slot.calculate_fee h (ParkingLot.at_fee clk) (ParkingLot.at_fee_pass clk) slot
         = Ret (ParkingLot.exit_base_fee res) /\
       ParkingLot.exit_slot res = Some (snd (Slot.release slot)) /\
       In (snd (Slot.release slot)) (ParkingLot.slots pl') /\
       Slot.allocation_time (snd (Slot.release slot)) = Slot.allocation_time slot /\
       forall now now_pass,
         Slot.calculate_fee h' now now_pass (snd (Slot.release slot)) = Ret 0%Q) /\
  (forall ticket clk pl h slot,
     ParkingLot.get_slot_by_ticket ticket pl h = Ret (Some slot) ->
     is_Some (Slot.allocation_time slot) ->
     exists res pl' h' fee,
       ParkingLot.process_vehicle_exit ticket clk pl h = Ret (res, pl', h') /\
       ParkingLot.success res = true /\
       Slot.is_occupied slot = true /\
       Slot.calculate_fee h (ParkingLot.at_fee clk) (ParkingLot.at_fee_pass clk) slot
         = Ret fee /\
       ParkingLot.exit_base_fee res = fee /\
       ParkingLot.exit_slot res = Some (snd (Slot.release slot)) /\
       In (snd (Slot.release slot)) (ParkingLot.slots pl') /\
       forall now now_pass,
         Slot.calculate_fee h' now now_pass (snd (Slot.release slot)) = Ret 0%Q).
Proof.
  assert (Hzero : forall h now now_pass s,
             Slot.is_occupied s = false \/ Slot.allocation_time s = None ->
             Slot.calculate_fee h now now_pass s = Ret 0%Q).
  { intros h now now_pass s [H|H]; unfold Slot.calculate_fee; rewrite H;
      [reflexivity|now destruct (Slot.is_occupied s)]. }
  assert (Hrel : forall s, Slot.is_occupied s = true ->
                           snd (Slot.release s) = free_slot s).
  { intros s H. unfold Slot.release. now rewrite H. }
  split; [exact Hzero|]. split; [|split].
  - intros s Hocc. rewrite (Hrel s Hocc).
    split; [reflexivity|]. split; [reflexivity|].
    intros h now now_pass. apply Hzero. now left.
  - intros ticket clk pl h res pl' h' Hexit Hsuccess.
    destruct (process_vehicle_exit_cases _ _ _ _ _ _ _ Hexit)
      as [(_ & -> & _)|(slot & r & fee & l1 & l2 & Hfound & Hocc & _ & Hfee
                        & _ & -> & _ & Hbase & Hslot & _)];
      [discriminate|].
    exists slot. rewrite (Hrel slot Hocc), Hbase.
    split; [exact Hfound|]. split; [exact Hocc|]. split; [exact Hfee|].
    split; [exact Hslot|]. split; [simpl; apply in_or_app; right; now left|].
    split; [reflexivity|].
    intros now now_pass. apply Hzero. now left.
  - intros ticket clk pl h slot Hfound Halloc.
    destruct (process_vehicle_exit_succeeds ticket clk pl h slot Hfound Halloc)
      as (res & pl' & h' & fee & l1 & l2 & Hexit & Hocc & Hfee & Hsucc & Hbase
          & Hslot & Hl & Hl').
    exists res, pl', h', fee. rewrite (Hrel slot Hocc).
    split; [exact Hexit|]. split; [exact Hsucc|]. split; [exact Hocc|].
    split; [exact Hfee|]. split; [exact Hbase|]. split; [exact Hslot|].
    split; [rewrite Hl'; apply in_or_app; right; now left|].
    intros now now_pass. apply Hzero. now left.
Qed.

(** The exit of the Standard-tier car, 30 hours after its allocation:
    [process_vehicle_exit] succeeds, reports the fee 275 of the slot
    while occupied, and returns the slot released, whose fee is 0. *)
Lemma fee_only_before_release_witness :
  exists res pl' h',
    ParkingLot.process_vehicle_exit "5B20D4A7" after_30_hours
      (lot once_allocated) (objects once_allocated) = Ret (res, pl', h') /\
    ParkingLot.success res = true /\
    Slot.calculate_fee (objects once_allocated) (30 * HOUR) (30 * HOUR)
                       standard_slot = Ret 275%Q /\
    ParkingLot.exit_base_fee res = 275%Q /\
    ParkingLot.exit_slot res = Some (snd (Slot.release standard_slot)) /\
    Slot.allocation_time (snd (Slot.release standard_slot)) = Some 0%Z /\
    Slot.calculate_fee h' (30 * HOUR) (30 * HOUR)
                       (snd (Slot.release standard_slot)) = Ret 0%Q.
Proof.
  destruct (proj2 (proj2 (proj2 fee_only_before_release))
              "5B20D4A7" after_30_hours (lot once_allocated) (objects once_allocated)
              standard_slot)
    as (res & pl' & h' & fee & Hexit & Hsucc & _ & Hfee & Hbase & Hslot & _ & Hzero).
  - vm_compute. reflexivity.
  - exists 0%Z. reflexivity.
  - assert (Hval : Slot.calculate_fee (objects once_allocated) (30 * HOUR) (30 * HOUR)
                                      standard_slot = Ret 275%Q)
      by (vm_compute; reflexivity).
    exists res, pl', h'.
    split; [exact Hexit|]. split; [exact Hsucc|]. split; [exact Hval|].
    split; [|split; [exact Hslot|split; [reflexivity|apply Hzero]]].
    rewrite Hbase. change (ParkingLot.at_fee after_30_hours) with (30 * HOUR)%Z in Hfee.
    change (ParkingLot.at_fee_pass after_30_hours) with (30 * HOUR)%Z in Hfee.
    rewrite Hval in Hfee. now injection Hfee as <-.
Defined.

(** The exit of the Standard-tier car 30 hours after its allocation:
    the result carries the fee 275, and the slot it returns has fee 0. *)
Example exit_after_30_hours :
  match ParkingLot.process_vehicle_exit "5B20D4A7" after_30_hours
          (lot once_allocated) (objects once_allocated) with
  | Ret (res, pl', h') =>
      ParkingLot.success res = true /\
      ParkingLot.exit_base_fee res = 275%Q /\
      ParkingLot.exit_slot res = Some (free_slot standard_slot) /\
      Slot.calculate_fee h' (30 * HOUR) (30 * HOUR) (free_slot standard_slot) = Ret 0%Q /\
      ParkingLot.release_slot "5B20D4A7" pl' h' = Ret (None, pl')
  | Exc _ => False
  end.
Proof. vm_compute. repeat split. Qed.

(** * Further properties of the engine *)

(** ** Rounding and fees *)

Lemma round2_cases x :
  exists k : Z,
    round2 x = Qred (Qmake k 100) /\
    2 * (Qnum x * 100 - k * Zpos (Qden x)) <= Zpos (Qden x) /\
    2 * (k * Zpos (Qden x) - Qnum x * 100) <= Zpos (Qden x) /\
    (2 * (Qnum x * 100 - k * Zpos (Qden x)) = Zpos (Qden x) -> Z.even k = true) /\
    (2 * (k * Zpos (Qden x) - Qnum x * 100) = Zpos (Qden x) -> Z.even k = true).
Proof.
  unfold round2.
  set (n := Qnum x * 100). set (d := Zpos (Qden x)).
  assert (Hd : 0 < d) by (unfold d; lia).
  pose proof (Z.div_mod n d ltac:(lia)) as Hdm.
  pose proof (Z.mod_pos_bound n d Hd) as Hr.
  set (q := n / d) in *. set (r := n mod d) in *.
  destruct (2 * r <? d)%Z eqn:E1.
  - apply Z.ltb_lt in E1. exists q. split; [reflexivity|]. repeat split; try lia.
  - apply Z.ltb_ge in E1. destruct (d <? 2 * r)%Z eqn:E2.
    + apply Z.ltb_lt in E2. exists (q + 1). split; [reflexivity|]. repeat split; try lia.
    + apply Z.ltb_ge in E2. destruct (Z.even q) eqn:E3.
      * exists q. split; [reflexivity|]. repeat split; try lia; intros _; exact E3.
      * exists (q + 1). split; [reflexivity|].
        repeat split; try lia; intros _; rewrite Z.even_add, E3; reflexivity.
Qed.

Lemma round2_nonneg x : (0 <= x)%Q -> (0 <= round2 x)%Q.
Proof.
  intros Hx. destruct (round2_cases x) as (k & -> & H1 & H2 & _).
  rewrite Qred_correct. unfold Qle in *. simpl in *. nia.
Qed.

Lemma py_max_ge_l a b : (a <= py_max a b)%Q.
Proof.
  unfold py_max. destruct (Qle_bool b a) eqn:E; [apply Qle_refl|].
  destruct (Qlt_le_dec a b) as [H|H]; [now apply Qlt_le_weak|].
  apply Qle_bool_iff in H. congruence.
Qed.

Lemma py_min_le_r a b : (py_min a b <= b)%Q.
Proof.
  unfold py_min. destruct (Qle_bool a b) eqn:E; [now apply Qle_bool_iff|apply Qle_refl].
Qed.

Lemma py_min_nonneg a b : (0 <= a)%Q -> (0 <= b)%Q -> (0 <= py_min a b)%Q.
Proof. intros Ha Hb. unfold py_min. now destruct (Qle_bool a b). Qed.

Lemma daily_rate_positive vt : (0 < ParkingRules.DAILY_RATES vt)%Q.
Proof. now destruct vt. Qed.

Lemma base_fee_nonneg v d now_pass : (0 <= Slot.base_fee v d now_pass)%Q.
Proof.
  unfold Slot.base_fee.
  destruct (Slot.pass_active v now_pass); [apply Qle_refl|].
  destruct (CustomerType.eqb _ _).
  - now destruct (Vehicle.vehicle_type v).
  - apply Qmult_le_0_compat; [apply Qlt_le_weak, daily_rate_positive|].
    eapply Qle_trans; [|apply py_max_ge_l]. discriminate.
Qed.

Lemma overstay_hours_nonneg d limit :
  limit <= d -> (0 <= total_seconds (d - limit)%Z / 3600 * ParkingRules.penalty_per_hour)%Q.
Proof.
  intros H. apply Qmult_le_0_compat; [|discriminate].
  apply Qmult_le_0_compat; [|discriminate].
  unfold total_seconds, Qle. simpl. lia.
Qed.

Lemma overstay_penalty_nonneg v d : (0 <= Slot.overstay_penalty v d)%Q.
Proof.
  unfold Slot.overstay_penalty.
  destruct (_ <? d)%Z eqn:E; [|apply Qle_refl].
  apply Z.ltb_lt in E. apply py_min_nonneg; [|discriminate].
  apply overstay_hours_nonneg. lia.
Qed.

Lemma overstay_penalty_le_cap v d :
  (Slot.overstay_penalty v d <= ParkingRules.max_overstay_penalty)%Q.
Proof.
  unfold Slot.overstay_penalty.
  destruct (_ <? d)%Z eqn:E; [apply py_min_le_r|discriminate].
Qed.

(** X2. Whatever the slot, the vehicle and the clock readings (a reading
    earlier than the allocation included), a fee returned by
    [calculate_fee] is not negative. *)
Theorem calculate_fee_never_negative (h : store) (now now_pass : datetime)
    (s : Slot.t) (fee : Q) :
  Slot.calculate_fee h now now_pass s = Ret fee ->
  (0 <= fee)%Q.
Proof.
  unfold Slot.calculate_fee, Slot.the_vehicle.
  destruct (Slot.is_occupied s); [|intros [= <-]; apply Qle_refl].
  destruct (Slot.allocation_time s) as [a|]; [|intros [= <-]; apply Qle_refl].
  destruct (Slot.vehicle s) as [r|]; simpl; [|discriminate].
  intros [= <-]. apply round2_nonneg.
  replace 0%Q with (0 + 0)%Q by reflexivity. apply Qplus_le_compat.
  - apply base_fee_nonneg.
  - apply overstay_penalty_nonneg.
Qed.

Lemma calculate_fee_never_negative_witness :
  Slot.calculate_fee (objects once_allocated) (- HOUR) 0 standard_slot = Ret 100%Q /\
  (0 <= 100)%Q.
Proof.
  split; [vm_compute; reflexivity|].
  apply (calculate_fee_never_negative (objects once_allocated) (- HOUR) 0
           standard_slot 100%Q).
  vm_compute. reflexivity.
Defined.

Lemma overstay_penalty_capped_aux v d :
  let limit := timedelta_hours (ParkingRules.TIME_LIMITS (Vehicle.customer_type v)) in
  (d <= limit -> Slot.overstay_penalty v d = 0%Q) /\
  (limit < d -> (0 < Slot.overstay_penalty v d)%Q).
Proof.
  intros limit. unfold Slot.overstay_penalty. fold limit. split.
  - intros H. apply Z.ltb_ge in H. now rewrite H.
  - intros H. assert (E : (limit <? d)%Z = true) by now apply Z.ltb_lt.
    rewrite E. unfold py_min.
    destruct (Qle_bool _ _); [|reflexivity].
    unfold total_seconds, Qlt. simpl. lia.
Qed.

(** X3. The overstay penalty added by [calculate_fee] lies between 0 and
    the cap of 500: it is 0 up to the time limit of the tier, positive
    beyond it, and exactly 500 from 20 hours of overstay on. *)
Theorem overstay_penalty_capped (v : Vehicle.t) (d : timedelta) :
  (0 <= Slot.overstay_penalty v d)%Q /\
  (Slot.overstay_penalty v d <= 500)%Q /\
  (d <= timedelta_hours (ParkingRules.TIME_LIMITS (Vehicle.customer_type v)) ->
   Slot.overstay_penalty v d = 0%Q) /\
  (timedelta_hours (ParkingRules.TIME_LIMITS (Vehicle.customer_type v)) < d ->
   (0 < Slot.overstay_penalty v d)%Q) /\
  (timedelta_hours (ParkingRules.TIME_LIMITS (Vehicle.customer_type v)) + 20 * HOUR <= d ->
   (Slot.overstay_penalty v d == 500)%Q).
Proof.
  split; [apply overstay_penalty_nonneg|]. split; [apply overstay_penalty_le_cap|].
  split; [apply overstay_penalty_capped_aux|]. split; [apply overstay_penalty_capped_aux|].
  unfold Slot.overstay_penalty.
  set (limit := timedelta_hours (ParkingRules.TIME_LIMITS (Vehicle.customer_type v))).
  intros H. assert (E : (limit <? d)%Z = true) by (apply Z.ltb_lt; unfold HOUR, SECOND in *; lia).
  rewrite E. unfold py_min.
  destruct (Qle_bool _ _) eqn:Hb; [|reflexivity].
  apply Qle_bool_iff in Hb. apply Qle_antisym; [exact Hb|].
  unfold total_seconds, Qle. simpl. unfold HOUR, SECOND in H. lia.
Qed.

Lemma days_used_at_most_one d :
  d <= DAY -> py_max 1 (total_seconds d / (24 * 3600)) = 1%Q.
Proof.
  intros H. unfold py_max.
  assert (E : Qle_bool (total_seconds d / (24 * 3600)) 1 = true).
  { apply Qle_bool_iff. unfold total_seconds, Qle. simpl.
    unfold DAY, HOUR, SECOND in H. lia. }
  now rewrite E.
Qed.

(** X4. A Standard-tier vehicle whose stay is at most 24 hours pays
    exactly the daily rate of its size: at least one day is billed and
    no penalty is due. *)
Theorem first_day_costs_daily_rate (h : store) (s : Slot.t) (r : ref)
    (allocated now now_pass : datetime) :
  Slot.is_occupied s = true ->
  Slot.allocation_time s = Some allocated ->
  Slot.vehicle s = Some r ->
  Vehicle.customer_type (h r) = CustomerType.REGULAR ->
  now - allocated <= DAY ->
  Slot.calculate_fee h now now_pass s =
    Ret (ParkingRules.DAILY_RATES (Vehicle.vehicle_type (h r))).
Proof.
  intros Hocc Halloc Hr Hct Hd.
  unfold Slot.calculate_fee, Slot.the_vehicle. rewrite Hocc, Halloc, Hr. simpl.
  unfold Slot.base_fee, Slot.overstay_penalty, Slot.pass_active.
  rewrite Hct. cbv zeta. rewrite (days_used_at_most_one _ Hd).
  change (timedelta_hours (ParkingRules.TIME_LIMITS CustomerType.REGULAR)) with DAY.
  apply Z.ltb_ge in Hd. rewrite Hd. simpl.
  now destruct (Vehicle.vehicle_type (h r)).
Qed.

Lemma first_day_costs_daily_rate_witness :
  Slot.calculate_fee (objects once_allocated) (24 * HOUR) 0 standard_slot = Ret 100%Q.
Proof.
  apply (first_day_costs_daily_rate (objects once_allocated) standard_slot 0%nat 0
           (24 * HOUR) 0 eq_refl eq_refl eq_refl eq_refl).
  vm_compute. discriminate.
Defined.

(** X5. A Member-tier vehicle without an active pass pays the flat
    membership rate of its size (1050, 2100 or 3150), whatever the
    length of a stay of at most 720 hours. *)
Theorem member_without_pass_pays_flat_rate (h : store) (s : Slot.t) (r : ref)
    (allocated now now_pass : datetime) :
  Slot.is_occupied s = true ->
  Slot.allocation_time s = Some allocated ->
  Slot.vehicle s = Some r ->
  Vehicle.customer_type (h r) = CustomerType.VIP ->
  Slot.pass_active (h r) now_pass = false ->
  now - allocated <= timedelta_hours 720 ->
  Slot.calculate_fee h now now_pass s =
    Ret (ParkingRules.MONTHLY_MEMBERSHIP_RATES (Vehicle.vehicle_type (h r))) /\
  ParkingRules.MONTHLY_MEMBERSHIP_RATES (Vehicle.vehicle_type (h r)) =
    match Vehicle.vehicle_type (h r) with
    | VehicleType.SMALL => 1050%Q
    | VehicleType.MEDIUM => 2100%Q
    | VehicleType.LARGE => 3150%Q
    end.
Proof.
  intros Hocc Halloc Hr Hct Hpass Hd.
  split; [|now destruct (Vehicle.vehicle_type (h r))].
  unfold Slot.calculate_fee, Slot.the_vehicle. rewrite Hocc, Halloc, Hr. simpl.
  unfold Slot.base_fee, Slot.overstay_penalty.
  rewrite Hpass, Hct. cbv zeta.
  change (ParkingRules.TIME_LIMITS CustomerType.VIP) with 720.
  apply Z.ltb_ge in Hd. rewrite Hd. simpl.
  now destruct (Vehicle.vehicle_type (h r)).
Qed.

Lemma member_without_pass_pays_flat_rate_witness :
  Slot.calculate_fee (objects twice_allocated) (3 * HOUR) (3 * HOUR)
    (bind_slot 0%nat HOUR (Slot.__init__ "V1S01" 1 ParkSection.VIP VehicleType.SMALL))
  = Ret 1050%Q.
Proof.
  refine (proj1 (member_without_pass_pays_flat_rate (objects twice_allocated)
           (bind_slot 0%nat HOUR (Slot.__init__ "V1S01" 1 ParkSection.VIP VehicleType.SMALL))
           0%nat HOUR (3 * HOUR) (3 * HOUR) eq_refl eq_refl eq_refl eq_refl eq_refl _)).
  vm_compute. discriminate.
Defined.

(** X6. For an occupied slot whose vehicle has no active pass,
    [is_expired] holds exactly when [calculate_fee] adds a positive
    overstay penalty for the same elapsed time. *)
Theorem expired_iff_overstay_charged (h : store) (s : Slot.t) (r : ref)
    (allocated now now_pass : datetime) :
  Slot.is_occupied s = true ->
  Slot.allocation_time s = Some allocated ->
  Slot.vehicle s = Some r ->
  Slot.pass_active (h r) now_pass = false ->
  (Slot.is_expired h now_pass now s = Ret true <->
   (0 < Slot.overstay_penalty (h r) (now - allocated)%Z)%Q) /\
  (Slot.is_expired h now_pass now s = Ret false <->
   Slot.overstay_penalty (h r) (now - allocated) = 0%Q).
Proof.
  intros Hocc Halloc Hr Hpass.
  unfold Slot.is_expired, Slot.the_vehicle. rewrite Hocc, Halloc, Hr. simpl.
  rewrite Hpass.
  pose proof (overstay_penalty_capped_aux (h r) (now - allocated)) as Haux.
  assert (Hlimit :
    (if CustomerType.eqb (Vehicle.customer_type (h r)) CustomerType.REGULAR
     then timedelta_hours 24 else timedelta_days 30) =
    timedelta_hours (ParkingRules.TIME_LIMITS (Vehicle.customer_type (h r))))
    by now destruct (Vehicle.customer_type (h r)).
  rewrite Hlimit. destruct Haux as [Hlow Hhigh].
  destruct (Z.ltb_spec (timedelta_hours (ParkingRules.TIME_LIMITS (Vehicle.customer_type (h r))))
                       (now - allocated)) as [Hlt|Hge].
  - specialize (Hhigh Hlt). split; split; auto; try discriminate.
    intros E. rewrite E in Hhigh. discriminate.
  - specialize (Hlow Hge). split; split; auto; try discriminate.
    rewrite Hlow. discriminate.
Qed.

(** ** The order of the search *)

Section DictOrder.
Import Slot.

Lemma head_sort_first_lowest l s :
  head (sort_by_level l) = Some s ->
  exists l1 l2,
    l = (l1 ++ s :: l2)%list /\
    (forall x, In x l1 -> level s < level x) /\
    (forall x, In x l2 -> level s <= level x).
Proof.
  revert s. induction l as [|x l IH]; intros s; simpl; [discriminate|].
  rewrite head_insert_by_level.
  destruct (head (sort_by_level l)) as [y|] eqn:Hy.
  - destruct (IH y eq_refl) as (a & b & -> & Ha & Hb).
    destruct (level x <=? level y)%Z eqn:Hle; intros [= <-].
    + apply Z.leb_le in Hle. exists [], (a ++ y :: b)%list.
      split; [reflexivity|]. split; [intros ? []|].
      intros c Hc. apply in_app_or in Hc. destruct Hc as [Hc|[<-|Hc]].
      * specialize (Ha c Hc). lia.
      * lia.
      * specialize (Hb c Hc). lia.
    + apply Z.leb_gt in Hle. exists (x :: a), b.
      split; [reflexivity|]. split; [|assumption].
      intros c [<-|Hc]; [lia|now apply Ha].
  - apply head_sort_by_level_nil in Hy. subst l. intros [= <-].
    exists [], []. repeat split; intros ? [].
Qed.

Lemma ascending_tail a ks : ascending (a :: ks) = true -> ascending ks = true.
Proof. destruct ks as [|b ks]; simpl; [reflexivity|]. now intros [_ H]%andb_true_iff. Qed.

Lemma ascending_head a ks b : ascending (a :: ks) = true -> In b ks -> a <= b.
Proof.
  revert a. induction ks as [|c ks IH]; intros a; [intros _ []|].
  intros H. pose proof H as H'. simpl in H'. apply andb_true_iff in H'. destruct H' as [Hac Hrest].
  apply Z.leb_le in Hac. intros [<-|Hb]; [assumption|].
  specialize (IH c Hrest Hb). lia.
Qed.

Lemma sort_ascending (p : t -> bool) l :
  ascending (map level l) = true ->
  sort_by_level (List.filter p l) = List.filter p l.
Proof.
  induction l as [|a l IH]; [reflexivity|]. intros H.
  pose proof (ascending_tail _ _ H) as Ht. specialize (IH Ht).
  simpl. destruct (p a); [|exact IH]. simpl. rewrite IH.
  destruct (List.filter p l) as [|y f] eqn:Hf; [reflexivity|]. simpl.
  assert (Hy : In y l).
  { assert (In y (List.filter p l)) by (rewrite Hf; now left).
    now apply filter_In in H0. }
  assert (Hle : level a <= level y).
  { apply (ascending_head _ _ _ H). now apply in_map. }
  apply Z.leb_le in Hle. now rewrite Hle.
Qed.

Lemma head_filter_find (p : t -> bool) l : head (List.filter p l) = List.find p l.
Proof. induction l as [|a l IH]; simpl; [reflexivity|]. now destruct (p a). Qed.

End DictOrder.

Lemma skeleton_level l : map Slot.level l = map (fun k => snd (fst (fst k))) (map skeleton l).
Proof. rewrite map_map. reflexivity. Qed.

Lemma fixed_pool_ascending pl : fixed_pool pl -> ascending (map Slot.level (ParkingLot.slots pl)) = true.
Proof.
  intros H. rewrite skeleton_level, H, <- skeleton_level. vm_compute. reflexivity.
Qed.

(** X7. The slot [_find_slot_in_section] returns is the first one, in
    dict order, among the candidates of lowest level: every candidate
    before it has a strictly higher level. *)
Theorem find_in_section_stable (vt : VehicleType.t) (sec : ParkSection.t)
    (pl : ParkingLot.t) (s : Slot.t) :
  ParkingLot._find_slot_in_section vt sec pl = Some s ->
  exists before after,
    List.filter (ParkingLot.candidate vt sec) (ParkingLot.slots pl)
      = (before ++ s :: after)%list /\
    (forall x, In x before -> Slot.level s < Slot.level x) /\
    (forall x, In x after -> Slot.level s <= Slot.level x).
Proof.
  rewrite find_in_section_sorted. apply head_sort_first_lowest.
Qed.

Lemma find_in_section_stable_witness :
  exists before after,
    List.filter (ParkingLot.candidate VehicleType.SMALL ParkSection.REGULAR)
                (ParkingLot.slots upper_first_pool)
      = (before ++ Slot.__init__ "R1S01" 1 ParkSection.REGULAR VehicleType.SMALL :: after)%list /\
    (forall x, In x before -> 1 < Slot.level x) /\
    (forall x, In x after -> 1 <= Slot.level x).
Proof.
  exact (find_in_section_stable VehicleType.SMALL ParkSection.REGULAR upper_first_pool
           (Slot.__init__ "R1S01" 1 ParkSection.REGULAR VehicleType.SMALL) eq_refl).
Defined.

(** X8. In every reachable state the levels already ascend along the
    dict, so [_find_slot_in_section] returns the first free slot of the
    size in the section in construction order. *)
Theorem reachable_find_is_first_free (st : State) (vt : VehicleType.t)
    (sec : ParkSection.t) :
  reachable st ->
  ParkingLot._find_slot_in_section vt sec (lot st) =
    List.find (ParkingLot.candidate vt sec) (ParkingLot.slots (lot st)).
Proof.
  intros Hreach. rewrite find_in_section_sorted.
  rewrite sort_ascending; [apply head_filter_find|].
  apply fixed_pool_ascending. exact (reachable_fixed_pool _ _ Hreach).
Qed.

(** ** Allocation, lookup and release *)

Lemma store_upd_same r f h : store_upd r f h r = f (h r).
Proof. unfold store_upd, store_set. now rewrite Nat.eqb_refl. Qed.

Lemma store_upd_other r f h r' : r' <> r -> store_upd r f h r' = h r'.
Proof.
  intros Hne. unfold store_upd, store_set. apply Nat.eqb_neq in Hne. now rewrite Hne.
Qed.

Section AllocateRelease.
Import ParkingLot.

Lemma put_split b s l1 l2 :
  NoDup (map Slot.id (l1 ++ s :: l2)) -> Slot.id b = Slot.id s ->
  put b (l1 ++ s :: l2) = (l1 ++ b :: l2)%list.
Proof.
  intros Hnd Hid. unfold put. rewrite map_app. simpl.
  rewrite Hid, String.eqb_refl. f_equal; [|f_equal].
  - rewrite <- (map_id l1) at 2. apply map_ext_in. intros x Hx.
    destruct (String.eqb (Slot.id x) (Slot.id s)) eqn:E; [|reflexivity].
    apply String.eqb_eq in E. exfalso.
    rewrite map_app in Hnd. apply NoDup_app in Hnd. destruct Hnd as (_ & Hdis & _).
    apply (Hdis (Slot.id x)); [apply list_elem_of_In; now apply in_map|].
    rewrite E. simpl. left.
  - rewrite <- (map_id l2) at 2. apply map_ext_in. intros x Hx.
    destruct (String.eqb (Slot.id x) (Slot.id s)) eqn:E; [|reflexivity].
    apply String.eqb_eq in E. exfalso.
    rewrite map_app in Hnd. apply NoDup_app in Hnd. destruct Hnd as (_ & _ & Hnd).
    simpl in Hnd. apply NoDup_cons in Hnd. destruct Hnd as [Hnotin _].
    apply Hnotin, list_elem_of_In. rewrite <- E. now apply in_map.
Qed.

(** A successful allocation rewrites one position of the dict. *)
Lemma allocate_slot_split r is_ev now pl h s' pl' h' :
  NoDup (map Slot.id (slots pl)) ->
  allocate_slot r is_ev now pl h = (Some s', pl', h') ->
  exists l1 s l2,
    slots pl = (l1 ++ s :: l2)%list /\ Slot.is_occupied s = false /\
    s' = bind_slot r now s /\
    pl' = mk (l1 ++ s' :: l2) (vip_passes pl) /\
    h' = store_upd r (Vehicle.set_allocation_time (Some now)) h.
Proof.
  intros Hnd Halloc.
  destruct (allocate_slot_cases r is_ev now pl h)
    as [[Heq _]|(s & _ & Hin & Hocc & Heq)]; rewrite Heq in Halloc; [discriminate|].
  injection Halloc as <- <- <-.
  apply in_split in Hin. destruct Hin as (l1 & l2 & Hl).
  exists l1, s, l2. rewrite Hl in *. repeat split; auto.
  now rewrite put_split.
Qed.

Lemma filter_length_app (p : Slot.t -> bool) l1 x l2 :
  length (List.filter p (l1 ++ x :: l2)) =
  (length (List.filter p l1) + (if p x then 1 else 0) + length (List.filter p l2))%nat.
Proof.
  rewrite List.filter_app, List.length_app. simpl. destruct (p x); simpl; lia.
Qed.

End AllocateRelease.

(** X9. [allocate_slot] returns [None], changing nothing, only when every
    slot of the vehicle's size is occupied.  Otherwise the slot it
    returns is in the pool, was free, is now occupied by the vehicle
    with the allocation time [now], which is also written to the
    vehicle; no other vehicle object is touched. *)
Theorem allocate_slot_outcome (r : ref) (is_ev : bool) (now : datetime)
    (pl : ParkingLot.t) (h : store) :
  match ParkingLot.allocate_slot r is_ev now pl h with
  | (None, pl', h') =>
      pl' = pl /\ h' = h /\
      forall s, In s (ParkingLot.slots pl) ->
                Slot.vehicle_type s = Vehicle.vehicle_type (h r) ->
                Slot.is_occupied s = true
  | (Some s', pl', h') =>
      In s' (ParkingLot.slots pl') /\
      Slot.is_occupied s' = true /\ Slot.vehicle s' = Some r /\
      Slot.allocation_time s' = Some now /\
      Slot.vehicle_type s' = Vehicle.vehicle_type (h r) /\
      (exists s, In s (ParkingLot.slots pl) /\ Slot.is_occupied s = false /\
                 skeleton s = skeleton s') /\
      Vehicle.allocation_time (h' r) = Some now /\
      (forall r', r' <> r -> h' r' = h r')
  end.
Proof.
  destruct (allocate_slot_cases r is_ev now pl h)
    as [[-> Hnone]|(s & Hfind & Hin & Hocc & ->)].
  - split; [reflexivity|]. split; [reflexivity|].
    rewrite find_slot_first_match, sections_follow_table in Hnone.
    rewrite first_match_none in Hnone.
    intros s Hin Hvt.
    exact (Hnone (Slot.section s) (policy_table_complete _ _ _) s Hin eq_refl Hvt).
  - rewrite find_slot_first_match in Hfind. apply first_match_some in Hfind.
    destruct Hfind as (_ & sec & _ & _ & _ & Hsec).
    apply find_in_section_some in Hsec. destruct Hsec as (_ & _ & Hvt & _).
    split.
    { simpl. unfold ParkingLot.put. apply in_map_iff. exists s.
      split; [|assumption]. simpl. now rewrite String.eqb_refl. }
    repeat split; auto.
    + exists s. auto.
    + unfold store_upd, store_set. rewrite Nat.eqb_refl. now destruct (h r).
    + intros r' Hne. unfold store_upd, store_set.
      apply Nat.eqb_neq in Hne. now rewrite Hne.
Qed.

(** X10. A successful [allocate_slot] adds one occupied slot and takes one
    from the available count of the partition of the slot returned,
    leaving the other partitions as they were. *)
Theorem allocate_slot_counts (r : ref) (is_ev : bool) (now : datetime)
    (pl : ParkingLot.t) (h : store) (s' : Slot.t) (pl' : ParkingLot.t) (h' : store) :
  fixed_pool pl ->
  ParkingLot.allocate_slot r is_ev now pl h = (Some s', pl', h') ->
  length (ParkingLot.get_occupied_slots pl') =
    S (length (ParkingLot.get_occupied_slots pl)) /\
  forall vt sec,
    ParkingLot.available_count vt sec pl =
    (ParkingLot.available_count vt sec pl' +
     (if in_partition vt sec s' then 1 else 0))%nat.
Proof.
  intros Hfix Halloc.
  destruct (allocate_slot_split _ _ _ _ _ _ _ _ (fixed_pool_nodup _ Hfix) Halloc)
    as (l1 & s & l2 & Hl & Hocc & -> & -> & _).
  split.
  - unfold ParkingLot.get_occupied_slots. simpl. rewrite Hl, !filter_length_app.
    rewrite Hocc. simpl. lia.
  - intros vt sec. unfold ParkingLot.available_count. simpl.
    rewrite Hl, !filter_length_app. unfold in_partition. simpl. rewrite Hocc.
    destruct (VehicleType.eqb (Slot.vehicle_type s) vt &&
              ParkSection.eqb (Slot.section s) sec); simpl; lia.
Qed.

(** X11. A successful [release_slot] returns a slot of the pool that is no
    longer occupied, removes one occupied slot and gives one back to the
    available count of its partition only. *)
Theorem release_slot_counts (ticket : string) (pl : ParkingLot.t) (h : store)
    (s' : Slot.t) (pl' : ParkingLot.t) :
  ParkingLot.release_slot ticket pl h = Ret (Some s', pl') ->
  Slot.is_occupied s' = false /\ In s' (ParkingLot.slots pl') /\
  S (length (ParkingLot.get_occupied_slots pl')) =
    length (ParkingLot.get_occupied_slots pl) /\
  forall vt sec,
    ParkingLot.available_count vt sec pl' =
    (ParkingLot.available_count vt sec pl +
     (if in_partition vt sec s' then 1 else 0))%nat.
Proof.
  unfold ParkingLot.release_slot.
  destruct (ParkingLot.release_scan h ticket (ParkingLot.slots pl)) as [res|e] eqn:Hscan;
    simpl; [|discriminate].
  destruct (release_scan_cases _ _ _ _ Hscan)
    as [[-> _]|(l1 & s & l2 & Hl & _ & Hs & ->)]; simpl; [discriminate|].
  intros [= <- <-]. apply holds_ticket_occupied in Hs. destruct Hs as [Hocc _].
  split; [reflexivity|]. split; [simpl; apply in_or_app; right; now left|].
  split.
  - unfold ParkingLot.get_occupied_slots. simpl. rewrite Hl, !filter_length_app.
    rewrite Hocc. simpl. lia.
  - intros vt sec. unfold ParkingLot.available_count. simpl.
    rewrite Hl, !filter_length_app. unfold in_partition. simpl. rewrite Hocc.
    destruct (VehicleType.eqb (Slot.vehicle_type s) vt &&
              ParkSection.eqb (Slot.section s) sec); simpl; lia.
Qed.

Section RoundTrip.
Import ParkingLot.

Lemma ticket_scan_app h ticket l1 s l2 :
  (forall x, In x l1 -> holds_ticket h ticket x = Ret false) ->
  holds_ticket h ticket s = Ret true ->
  ticket_scan h ticket (l1 ++ s :: l2) = Ret (Some s).
Proof.
  intros Hl1 Hs. induction l1 as [|a l1 IH]; simpl.
  - now rewrite Hs.
  - rewrite (Hl1 a (or_introl eq_refl)). simpl. apply IH.
    intros x Hx. apply Hl1. now right.
Qed.

Lemma release_scan_app h ticket l1 s l2 :
  (forall x, In x l1 -> holds_ticket h ticket x = Ret false) ->
  holds_ticket h ticket s = Ret true ->
  release_scan h ticket (l1 ++ s :: l2)
    = Ret (Some (free_slot s), (l1 ++ free_slot s :: l2)%list).
Proof.
  intros Hl1 Hs. induction l1 as [|a l1 IH]; simpl.
  - rewrite Hs. simpl. apply holds_ticket_occupied in Hs. destruct Hs as [Hocc _].
    unfold Slot.release. now rewrite Hocc.
  - rewrite (Hl1 a (or_introl eq_refl)). simpl. rewrite IH; [reflexivity|].
    intros x Hx. apply Hl1. now right.
Qed.

Lemma set_allocation_time_ticket x v :
  Vehicle.ticket_id (Vehicle.set_allocation_time x v) = Vehicle.ticket_id v.
Proof. now destruct v. Qed.

(** After a successful allocation under a ticket no occupied slot held,
    both scans stop at the slot just bound. *)
Lemma allocated_slot_found r is_ev now pl h s' pl' h' :
  fixed_pool pl ->
  (forall s, In s (slots pl) -> binding_ok s) ->
  ticket_unbound (mkState pl h) (Vehicle.ticket_id (h r)) ->
  allocate_slot r is_ev now pl h = (Some s', pl', h') ->
  exists l1 s l2,
    slots pl = (l1 ++ s :: l2)%list /\
    s' = bind_slot r now s /\ Slot.is_occupied s = false /\
    slots pl' = (l1 ++ s' :: l2)%list /\ vip_passes pl' = vip_passes pl /\
    ticket_scan h' (Vehicle.ticket_id (h r)) (slots pl') = Ret (Some s') /\
    release_scan h' (Vehicle.ticket_id (h r)) (slots pl')
      = Ret (Some (free_slot s'), (l1 ++ free_slot s' :: l2)%list).
Proof.
  intros Hfix Hok Hunbound Halloc.
  destruct (allocate_slot_split _ _ _ _ _ _ _ _ (fixed_pool_nodup _ Hfix) Halloc)
    as (l1 & s & l2 & Hl & Hocc & -> & -> & ->).
  exists l1, s, l2.
  split; [exact Hl|]. split; [reflexivity|]. split; [exact Hocc|].
  split; [reflexivity|]. split; [reflexivity|].
  assert (Hbefore : forall x, In x l1 ->
            holds_ticket (store_upd r (Vehicle.set_allocation_time (Some now)) h)
                         (Vehicle.ticket_id (h r)) x = Ret false).
  { intros x Hx.
    rewrite (holds_ticket_ext h); [|apply store_upd_ticket, set_allocation_time_ticket].
    assert (Hin : In x (slots pl)) by (rewrite Hl; apply in_or_app; now left).
    apply holds_ticket_false; [now apply Hok|].
    intros r0 Ho Hr0. exact (Hunbound x r0 Hin Ho Hr0). }
  assert (Hhere : holds_ticket (store_upd r (Vehicle.set_allocation_time (Some now)) h)
                               (Vehicle.ticket_id (h r)) (bind_slot r now s) = Ret true).
  { unfold holds_ticket. simpl.
    rewrite store_upd_ticket by apply set_allocation_time_ticket.
    now rewrite String.eqb_refl. }
  split.
  - simpl. apply ticket_scan_app; assumption.
  - simpl. apply release_scan_app; assumption.
Qed.

End RoundTrip.

Section RoundTripTheorems.
Import ParkingLot.

Lemma allocate_succeeds_when_free r is_ev now pl h :
  (exists s, In s (slots pl) /\
             Slot.vehicle_type s = Vehicle.vehicle_type (h r) /\
             Slot.is_occupied s = false) ->
  exists s, In s (slots pl) /\ Slot.is_occupied s = false /\
    Slot.vehicle_type s = Vehicle.vehicle_type (h r) /\
    allocate_slot r is_ev now pl h =
      (Some (bind_slot r now s),
       mk (put (bind_slot r now s) (slots pl)) (vip_passes pl),
       store_upd r (Vehicle.set_allocation_time (Some now)) h).
Proof.
  intros (s0 & Hin0 & Hvt0 & Hocc0).
  destruct (allocate_slot_cases r is_ev now pl h)
    as [[_ Hnone]|(s & Hfind & Hin & Hocc & Heq)].
  - exfalso. rewrite find_slot_first_match, sections_follow_table in Hnone.
    rewrite first_match_none in Hnone.
    pose proof (Hnone (Slot.section s0) (policy_table_complete _ _ _) s0 Hin0 eq_refl Hvt0).
    congruence.
  - exists s. repeat split; auto.
    rewrite find_slot_first_match in Hfind. apply first_match_some in Hfind.
    destruct Hfind as (_ & sec & _ & _ & _ & Hsec).
    apply find_in_section_some in Hsec. tauto.
Qed.

Lemma ticket_scan_no_match h ticket l :
  (forall s, In s l -> holds_ticket h ticket s = Ret false) ->
  ticket_scan h ticket l = Ret None.
Proof.
  induction l as [|a l IH]; simpl; intros H; [reflexivity|].
  rewrite (H a (or_introl eq_refl)). simpl. apply IH. intros s Hs. apply H. now right.
Qed.


End RoundTripTheorems.

(** X12. After [allocate_slot] for a vehicle whose ticket no occupied slot
    held, [get_slot_by_ticket] with that ticket returns the slot just
    allocated. *)
Theorem allocate_then_find_by_ticket (st : State) (r : ref) (is_ev : bool)
    (now : datetime) :
  reachable st ->
  ticket_unbound st (Vehicle.ticket_id (objects st r)) ->
  (exists s, In s (ParkingLot.slots (lot st)) /\
             Slot.vehicle_type s = Vehicle.vehicle_type (objects st r) /\
             Slot.is_occupied s = false) ->
  let st1 := run (AllocateSlot r is_ev now) st in
  exists s',
    ParkingLot.get_slot_by_ticket (Vehicle.ticket_id (objects st r))
                                  (lot st1) (objects st1) = Ret (Some s') /\
    Slot.is_occupied s' = true /\ Slot.vehicle s' = Some r /\
    Slot.allocation_time s' = Some now /\
    Slot.vehicle_type s' = Vehicle.vehicle_type (objects st r).
Proof.
  intros Hreach Hunbound Hfree st1.
  destruct (allocate_succeeds_when_free r is_ev now _ _ Hfree)
    as (s & Hin & Hocc & Hvt & Heq).
  destruct st as [pl h]. simpl in *.
  destruct (allocated_slot_found r is_ev now pl h _ _ _
              (reachable_fixed_pool _ _ Hreach) (reachable_binding_ok _ _ Hreach)
              Hunbound Heq)
    as (l1 & s0 & l2 & _ & Hs' & _ & _ & _ & Hscan & _).
  exists (bind_slot r now s). subst st1. simpl. rewrite Heq. simpl.
  split; [exact Hscan|]. repeat split. exact Hvt.
Qed.



(** X15. For a ticket bound to no occupied slot [process_vehicle_exit]
    answers "Ticket not found" and changes neither the pool nor any
    vehicle. *)
Theorem exit_unknown_ticket (st : State) (ticket : string)
    (clk : ParkingLot.exit_clock) :
  (forall s, In s (ParkingLot.slots (lot st)) -> binding_ok s) ->
  ticket_unbound st ticket ->
  ParkingLot.process_vehicle_exit ticket clk (lot st) (objects st)
    = Ret (ParkingLot.ticket_not_found, lot st, objects st) /\
  run (ProcessVehicleExit ticket clk) st = st.
Proof.
  intros Hok Hunbound.
  assert (H : ParkingLot.process_vehicle_exit ticket clk (lot st) (objects st)
              = Ret (ParkingLot.ticket_not_found, lot st, objects st)).
  { unfold ParkingLot.process_vehicle_exit, ParkingLot.get_slot_by_ticket.
    rewrite ticket_scan_no_match; [reflexivity|].
    intros s Hin. apply holds_ticket_false; [now apply Hok|].
    intros r Hocc Hr. exact (Hunbound s r Hin Hocc Hr). }
  split; [exact H|]. simpl. rewrite H. now destruct st.
Qed.

(** ** Policies, exit and status *)

Lemma strftime_by_minute now :
  ParkingLot.strftime_HM now = HM_of_minute (minute_of_day now).
Proof.
  unfold ParkingLot.strftime_HM, HM_of_minute, minute_of_day. cbv zeta.
  set (a := now mod DAY).
  assert (H1 : a / HOUR = a / (60 * SECOND) / 60).
  { rewrite Z.div_div by (unfold SECOND; lia). reflexivity. }
  assert (H2 : (a mod HOUR) / (60 * SECOND) = (a / (60 * SECOND)) mod 60).
  { change HOUR with ((60 * SECOND) * 60).
    rewrite Z.rem_mul_r by (unfold SECOND; lia).
    rewrite (Z.mul_comm (60 * SECOND) ((a / (60 * SECOND)) mod 60)).
    rewrite Z.div_add by (unfold SECOND; lia).
    rewrite Z.div_small; [lia|]. apply Z.mod_pos_bound. unfold SECOND. lia. }
  now rewrite H1, H2.
Qed.

Lemma minute_of_day_range now : 0 <= minute_of_day now < 1440.
Proof.
  unfold minute_of_day.
  pose proof (Z.mod_pos_bound now DAY ltac:(unfold DAY, HOUR, SECOND; lia)) as H.
  split.
  - apply Z.div_pos; [lia|unfold SECOND; lia].
  - apply Z.div_lt_upper_bound; [unfold SECOND; lia|].
    unfold DAY, HOUR, SECOND in *. lia.
Qed.

Lemma peak_by_minute_all :
  forallb (fun m =>
             Bool.eqb (existsb (fun period =>
                                 String.leb (fst period) (HM_of_minute m) &&
                                 String.leb (HM_of_minute m) (snd period))
                               ParkingRules.peak_hours)
                      (in_peak_minutes m))
          (map Z.of_nat (seq 0 1440)) = true.
Proof. vm_compute. reflexivity. Qed.

Lemma peak_by_minute m :
  0 <= m < 1440 ->
  existsb (fun period =>
             String.leb (fst period) (HM_of_minute m) &&
             String.leb (HM_of_minute m) (snd period))
          ParkingRules.peak_hours = in_peak_minutes m.
Proof.
  intros Hm. pose proof peak_by_minute_all as Hall.
  rewrite forallb_forall in Hall.
  apply Bool.eqb_prop, Hall. apply in_map_iff. exists (Z.to_nat m).
  split; [lia|]. apply in_seq. lia.
Qed.

(** X16. [check_peak_hour_restrictions] holds exactly for Large vehicles
    when the minute of the day is in 09:00-11:00 or 17:00-19:00, both
    ends included (up to 11:00:59 and 19:00:59). *)
Theorem peak_hours_by_the_minute (vt : VehicleType.t) (now : datetime) :
  ParkingLot.check_peak_hour_restrictions vt now =
    VehicleType.eqb vt VehicleType.LARGE && in_peak_minutes (minute_of_day now).
Proof.
  unfold ParkingLot.check_peak_hour_restrictions. simpl negb. cbv iota zeta.
  rewrite strftime_by_minute.
  rewrite <- (peak_by_minute _ (minute_of_day_range now)).
  generalize (HM_of_minute (minute_of_day now)). intros t.
  unfold ParkingRules.peak_hours. simpl.
  destruct (VehicleType.eqb vt VehicleType.LARGE);
    rewrite ?andb_true_r, ?andb_false_r, ?orb_false_r; reflexivity.
Qed.

(** ** Vehicle policy counters *)

(** X17. The answer of [can_re_enter] does not depend on the clock: it is
    [True] exactly when the counter is below the maximum and the vehicle
    is not suspended.  The only write is the reset of the counter, made
    when the counter is below the maximum and the window is over. *)
Theorem can_re_enter_answer (now : datetime) (v : Vehicle.t) :
  (fst (Vehicle.can_re_enter now v) = true <->
   Vehicle.re_entry_count v < ParkingRules.max_re_entries /\
   Vehicle.is_suspended v = false) /\
  (snd (Vehicle.can_re_enter now v) = v \/
   snd (Vehicle.can_re_enter now v) = Vehicle.set_re_entry_count 0 v /\
   Vehicle.re_entry_count v < ParkingRules.max_re_entries /\
   exists last, Vehicle.last_re_entry v = Some last /\ 24 * HOUR < now - last).
Proof.
  unfold Vehicle.can_re_enter.
  destruct (Z.leb_spec ParkingRules.max_re_entries (Vehicle.re_entry_count v)) as [Hmax|Hlt].
  - simpl. split; [|now left]. split; [discriminate|]. intros [H _]. lia.
  - destruct (Vehicle.last_re_entry v) as [last|] eqn:Hlast.
    + destruct (Vehicle.Qgtb _ _) eqn:Hgt; simpl.
      * split.
        -- replace (Vehicle.is_suspended (Vehicle.set_re_entry_count 0 v))
             with (Vehicle.is_suspended v) by now destruct v.
           rewrite negb_true_iff. tauto.
        -- right. split; [reflexivity|]. split; [assumption|].
           exists last. split; [reflexivity|].
           unfold Vehicle.Qgtb in Hgt. apply negb_true_iff in Hgt.
           destruct (Z_lt_le_dec (24 * HOUR) (now - last)) as [H|H]; [assumption|].
           exfalso. assert (Hle : Qle_bool (total_seconds (now - last) / 3600)
                                           ParkingRules.re_entry_window = true).
           { apply Qle_bool_iff. unfold total_seconds, Qle. simpl.
             unfold HOUR, SECOND in H. lia. }
           congruence.
      * split; [rewrite negb_true_iff; tauto|now left].
    + simpl. split; [rewrite negb_true_iff; tauto|now left].
Qed.

(** X18. The re-entry fee is 20 after [record_re_entry], 0 for a vehicle
    that never re-entered, and 0 again once [can_re_enter] has reset the
    counter after the window. *)
Theorem re_entry_fee_follows_counter (now : datetime) (v : Vehicle.t) :
  (0 <= Vehicle.re_entry_count v ->
   Vehicle.get_re_entry_fee (Vehicle.record_re_entry now v) = 20%Q) /\
  (Vehicle.re_entry_count v <= 0 -> Vehicle.get_re_entry_fee v = 0%Q) /\
  (forall last,
     Vehicle.re_entry_count v < ParkingRules.max_re_entries ->
     Vehicle.last_re_entry v = Some last -> 24 * HOUR < now - last ->
     Vehicle.get_re_entry_fee (snd (Vehicle.can_re_enter now v)) = 0%Q).
Proof.
  split; [|split].
  - intros H. unfold Vehicle.get_re_entry_fee, Vehicle.record_re_entry.
    replace (Vehicle.re_entry_count
               (Vehicle.set_last_re_entry (Some now)
                  (Vehicle.set_re_entry_count (Vehicle.re_entry_count v + 1) v)))
      with (Vehicle.re_entry_count v + 1) by now destruct v.
    assert (E : (0 <? Vehicle.re_entry_count v + 1)%Z = true) by (apply Z.ltb_lt; lia).
    now rewrite E.
  - intros H. unfold Vehicle.get_re_entry_fee.
    assert (E : (0 <? Vehicle.re_entry_count v)%Z = false) by (apply Z.ltb_ge; lia).
    now rewrite E.
  - intros last Hc Hl Hw. unfold Vehicle.get_re_entry_fee.
    now rewrite (can_re_enter_resets_below_maximum now last v Hc Hl Hw).
Qed.

Lemma issue_warning_fields reason v :
  Vehicle.warnings_issued (Vehicle.issue_warning reason v) = Vehicle.warnings_issued v + 1 /\
  (Vehicle.is_suspended (Vehicle.issue_warning reason v) =
     Vehicle.is_suspended v || (3 <=? Vehicle.warnings_issued v + 1)%Z) /\
  (2 <= Vehicle.warnings_issued v ->
   Vehicle.suspension_reason (Vehicle.issue_warning reason v) = "Multiple violations").
Proof.
  unfold Vehicle.issue_warning.
  replace (Vehicle.warnings_issued
             (Vehicle.set_warnings_issued (Vehicle.warnings_issued v + 1) v))
    with (Vehicle.warnings_issued v + 1) by now destruct v.
  destruct (Z.leb_spec 3 (Vehicle.warnings_issued v + 1)) as [H|H].
  - destruct v; simpl. repeat split. now rewrite orb_true_r.
  - destruct v; simpl in *. repeat split; [now rewrite orb_false_r|lia].
Qed.

(** X19. The third warning suspends the vehicle: from then on
    [validate_vehicle_entry] denies it with "Vehicle suspended: Multiple
    violations" and further warnings never lift the suspension. *)
Theorem third_warning_suspends (r : ref) (reason : string) (is_ev : bool)
    (now_peak now_entry : datetime) (pl : ParkingLot.t) (h : store) :
  2 <= Vehicle.warnings_issued (h r) ->
  let h' := store_upd r (Vehicle.issue_warning reason) h in
  Vehicle.is_suspended (h' r) = true /\
  ParkingLot.validate_vehicle_entry r is_ev now_peak now_entry pl h'
    = (Ret (false, "Vehicle suspended: Multiple violations"), h') /\
  (forall reason', Vehicle.is_suspended (Vehicle.issue_warning reason' (h' r)) = true).
Proof.
  intros Hw h'.
  assert (Hr : h' r = Vehicle.issue_warning reason (h r)).
  { unfold h', store_upd, store_set. now rewrite Nat.eqb_refl. }
  destruct (issue_warning_fields reason (h r)) as (Hcount & Hsusp & Hreason).
  assert (Hs : Vehicle.is_suspended (h' r) = true).
  { rewrite Hr, Hsusp. assert (E : (3 <=? Vehicle.warnings_issued (h r) + 1)%Z = true)
      by (apply Z.leb_le; lia). rewrite E. apply orb_true_r. }
  split; [exact Hs|]. split.
  - unfold ParkingLot.validate_vehicle_entry. rewrite Hs.
    rewrite Hr, (Hreason Hw). reflexivity.
  - intros reason'. destruct (issue_warning_fields reason' (h' r)) as (_ & -> & _).
    now rewrite Hs.
Qed.

(** ** Entry validation *)

Section Validation.
Import ParkingLot.

Lemma plate_scan_false h plate l :
  plate_scan h plate l = Ret false ->
  forall s r, In s l -> Slot.is_occupied s = true -> Slot.vehicle s = Some r ->
              Vehicle.license_plate (h r) <> plate.
Proof.
  induction l as [|a l IH]; simpl; [intros _ s r []|].
  unfold Slot.the_vehicle.
  destruct (Slot.is_occupied a) eqn:Hocc.
  - destruct (Slot.vehicle a) as [ra|] eqn:Hra; simpl; [|discriminate].
    destruct (String.eqb (Vehicle.license_plate (h ra)) plate) eqn:E; [discriminate|].
    intros H s r [<-|Hin] Ho Hr.
    + rewrite Hra in Hr. injection Hr as <-. now apply String.eqb_neq.
    + exact (IH H s r Hin Ho Hr).
  - intros H s r [<-|Hin] Ho Hr; [congruence|exact (IH H s r Hin Ho Hr)].
Qed.

Lemma plate_scan_true h plate l :
  plate_scan h plate l = Ret true ->
  exists s r, In s l /\ Slot.is_occupied s = true /\ Slot.vehicle s = Some r /\
              Vehicle.license_plate (h r) = plate.
Proof.
  induction l as [|a l IH]; simpl; [discriminate|].
  unfold Slot.the_vehicle.
  destruct (Slot.is_occupied a) eqn:Hocc.
  - destruct (Slot.vehicle a) as [ra|] eqn:Hra; simpl; [|discriminate].
    destruct (String.eqb (Vehicle.license_plate (h ra)) plate) eqn:E.
    + intros _. exists a, ra. apply String.eqb_eq in E. auto.
    + intros H. destruct (IH H) as (s & r & Hin & Hrest). exists s, r. auto.
  - intros H. destruct (IH H) as (s & r & Hin & Hrest). exists s, r. auto.
Qed.

Lemma can_re_enter_state now v :
  snd (Vehicle.can_re_enter now v) = v \/
  snd (Vehicle.can_re_enter now v) = Vehicle.set_re_entry_count 0 v.
Proof.
  unfold Vehicle.can_re_enter.
  destruct (_ <=? _)%Z; [now left|].
  destruct (Vehicle.last_re_entry v); [|now left].
  destruct (Vehicle.Qgtb _ _); [now right|now left].
Qed.

Lemma can_re_enter_keeps now v :
  let v' := snd (Vehicle.can_re_enter now v) in
  Vehicle.customer_type v' = Vehicle.customer_type v /\
  Vehicle.license_plate v' = Vehicle.license_plate v /\
  Vehicle.is_suspended v' = Vehicle.is_suspended v.
Proof.
  intros v'. destruct (can_re_enter_state now v) as [H|H];
    subst v'; rewrite H; [auto|]. now destruct v.
Qed.

Lemma can_re_enter_true now v :
  fst (Vehicle.can_re_enter now v) = true ->
  Vehicle.re_entry_count v < ParkingRules.max_re_entries /\
  Vehicle.is_suspended v = false.
Proof.
  pose proof (can_re_enter_keeps now v) as (_ & _ & Hs). revert Hs.
  unfold Vehicle.can_re_enter.
  destruct (Z.leb_spec ParkingRules.max_re_entries (Vehicle.re_entry_count v)) as [Hge|Hlt];
    [discriminate|].
  simpl. intros -> Hn. apply negb_true_iff in Hn. auto.
Qed.

End Validation.

(** X20. When [validate_vehicle_entry] allows the entry the message is
    "Entry allowed", the vehicle is not suspended, not restricted by the
    peak hours, below the maximum of re-entries and, for the Standard
    tier, no occupied slot holds a vehicle with its plate. *)
Theorem validate_entry_allowed (r : ref) (is_ev : bool)
    (now_peak now_entry : datetime) (pl : ParkingLot.t) (h h' : store)
    (msg : string) :
  ParkingLot.validate_vehicle_entry r is_ev now_peak now_entry pl h
    = (Ret (true, msg), h') ->
  msg = "Entry allowed" /\
  Vehicle.is_suspended (h r) = false /\
  ParkingLot.check_peak_hour_restrictions (Vehicle.vehicle_type (h r)) now_peak = false /\
  Vehicle.re_entry_count (h r) < ParkingRules.max_re_entries /\
  (Vehicle.customer_type (h r) = CustomerType.REGULAR ->
   forall s r0, In s (ParkingLot.slots pl) -> Slot.is_occupied s = true ->
                Slot.vehicle s = Some r0 ->
                Vehicle.license_plate (h r0) <> Vehicle.license_plate (h r)).
Proof.
  unfold ParkingLot.validate_vehicle_entry.
  destruct (Vehicle.is_suspended (h r)) eqn:Hsusp; [discriminate|].
  destruct (ParkingLot.check_peak_hour_restrictions _ now_peak) eqn:Hpeak; [discriminate|].
  pose proof (can_re_enter_keeps now_entry (h r)) as (Hct & Hplate & _).
  pose proof (can_re_enter_true now_entry (h r)) as Htrue.
  destruct (Vehicle.can_re_enter now_entry (h r)) as [ok v'] eqn:Hcan. simpl in *.
  destruct ok; simpl; [|discriminate]. destruct (Htrue eq_refl) as [Hcount _].
  rewrite Hct, Hplate.
  destruct (CustomerType.eqb (Vehicle.customer_type (h r)) CustomerType.REGULAR) eqn:Hreg.
  - destruct (ParkingLot.plate_scan (store_set r v' h) (Vehicle.license_plate (h r))
                (ParkingLot.slots pl)) as [[|]|e] eqn:Hscan; simpl; try discriminate.
    intros [= <- <-]. repeat split; auto.
    intros _ s r0 Hin Hocc Hr0.
    pose proof (plate_scan_false _ _ _ Hscan s r0 Hin Hocc Hr0) as Hne.
    unfold store_set in Hne. destruct (Nat.eqb r0 r) eqn:E; [|exact Hne].
    apply Nat.eqb_eq in E. subst r0. congruence.
  - intros [= <- <-]. repeat split; auto.
    intros Hc. rewrite Hc in Hreg. discriminate.
Qed.

(** X21. "Vehicle already parked" is answered to Standard-tier vehicles
    only, and only when an occupied slot holds a vehicle with the same
    plate. *)
Theorem already_parked_only_for_regular (r : ref) (is_ev : bool)
    (now_peak now_entry : datetime) (pl : ParkingLot.t) (h h' : store) :
  ParkingLot.validate_vehicle_entry r is_ev now_peak now_entry pl h
    = (Ret (false, "Vehicle already parked"), h') ->
  Vehicle.customer_type (h r) = CustomerType.REGULAR /\
  exists s r0, In s (ParkingLot.slots pl) /\ Slot.is_occupied s = true /\
               Slot.vehicle s = Some r0 /\
               Vehicle.license_plate (h r0) = Vehicle.license_plate (h r).
Proof.
  unfold ParkingLot.validate_vehicle_entry.
  destruct (Vehicle.is_suspended (h r)) eqn:Hsusp; [discriminate|].
  destruct (ParkingLot.check_peak_hour_restrictions _ now_peak) eqn:Hpeak; [discriminate|].
  pose proof (can_re_enter_keeps now_entry (h r)) as (Hct & Hplate & _).
  destruct (Vehicle.can_re_enter now_entry (h r)) as [ok v'] eqn:Hcan. simpl in *.
  destruct ok; simpl; [|discriminate].
  rewrite Hct, Hplate.
  destruct (CustomerType.eqb (Vehicle.customer_type (h r)) CustomerType.REGULAR) eqn:Hreg;
    [|discriminate].
  destruct (ParkingLot.plate_scan (store_set r v' h) (Vehicle.license_plate (h r))
              (ParkingLot.slots pl)) as [[|]|e] eqn:Hscan; simpl; try discriminate.
  intros _. split; [now apply customer_type_eqb_spec|].
  destruct (plate_scan_true _ _ _ Hscan) as (s & r0 & Hin & Hocc & Hr0 & Hp).
  exists s, r0. repeat split; auto.
  unfold store_set in Hp. destruct (Nat.eqb r0 r) eqn:E; [|exact Hp].
  apply Nat.eqb_eq in E. subst r0. congruence.
Qed.

(** X22. [validate_vehicle_entry] writes nothing but the re-entry counter
    of the vehicle it checks, which it may reset to 0. *)
Theorem validate_writes_only_the_counter (r : ref) (is_ev : bool)
    (now_peak now_entry : datetime) (pl : ParkingLot.t) (h : store) :
  let h' := snd (ParkingLot.validate_vehicle_entry r is_ev now_peak now_entry pl h) in
  (forall r', r' <> r -> h' r' = h r') /\
  (h' r = h r \/ h' r = Vehicle.set_re_entry_count 0 (h r)).
Proof.
  unfold ParkingLot.validate_vehicle_entry.
  destruct (Vehicle.is_suspended (h r)); [simpl; auto|].
  destruct (ParkingLot.check_peak_hour_restrictions _ now_peak); [simpl; auto|].
  pose proof (can_re_enter_state now_entry (h r)) as Hstate.
  destruct (Vehicle.can_re_enter now_entry (h r)) as [ok v'] eqn:Hcan. simpl in Hstate.
  assert (Hset : (forall r', r' <> r -> store_set r v' h r' = h r') /\
                 (store_set r v' h r = h r \/
                  store_set r v' h r = Vehicle.set_re_entry_count 0 (h r))).
  { unfold store_set. split.
    - intros r' Hne. apply Nat.eqb_neq in Hne. now rewrite Hne.
    - rewrite Nat.eqb_refl. destruct Hstate as [->| ->]; auto. }
  destruct ok; simpl; [|exact Hset].
  destruct (CustomerType.eqb _ _); exact Hset.
Qed.

(** ** Exit processing: what is written to the vehicle *)

(** X23. A successful [process_vehicle_exit] appends one session
    (allocation time, exit time, slot id) to the history of the vehicle,
    adds the total fee (base fee plus re-entry fee) to the fees paid,
    adds one warning exactly when the slot was expired, and touches no
    other vehicle. *)
Theorem exit_records_the_session (ticket : string) (clk : ParkingLot.exit_clock)
    (pl : ParkingLot.t) (h : store) (res : ParkingLot.exit_result)
    (pl' : ParkingLot.t) (h' : store) :
  ParkingLot.process_vehicle_exit ticket clk pl h = Ret (res, pl', h') ->
  ParkingLot.success res = true ->
  exists slot r entry,
    ParkingLot.get_slot_by_ticket ticket pl h = Ret (Some slot) /\
    Slot.vehicle slot = Some r /\ Slot.allocation_time slot = Some entry /\
    ParkingLot.exit_vehicle res = Some r /\
    ParkingLot.exit_time res = Some (ParkingLot.at_exit clk) /\
    Slot.is_expired h (ParkingLot.at_expired_pass clk) (ParkingLot.at_expired clk) slot
      = Ret (ParkingLot.exit_overstay res) /\
    ParkingLot.exit_re_entry_fee res = Vehicle.get_re_entry_fee (h r) /\
    ParkingLot.exit_total_fee res
      = (ParkingLot.exit_base_fee res + ParkingLot.exit_re_entry_fee res)%Q /\
    Vehicle.parking_sessions (h' r)
      = (Vehicle.parking_sessions (h r)
         ++ [(entry, ParkingLot.at_exit clk, Slot.id slot)])%list /\
    Vehicle.total_fees_paid (h' r)
      = (Vehicle.total_fees_paid (h r) + ParkingLot.exit_total_fee res)%Q /\
    Vehicle.warnings_issued (h' r)
      = Vehicle.warnings_issued (h r) + (if ParkingLot.exit_overstay res then 1 else 0) /\
    ParkingLot.exit_warnings res = Vehicle.warnings_issued (h' r) /\
    (forall r', r' <> r -> h' r' = h r').
Proof.
  unfold ParkingLot.process_vehicle_exit, ParkingLot.get_slot_by_ticket.
  destruct (ParkingLot.ticket_scan h ticket (ParkingLot.slots pl)) as [[slot|]|e] eqn:Hscan;
    simpl; [| intros [= <- <- <-]; discriminate | discriminate].
  destruct (ticket_scan_some _ _ _ _ Hscan) as (l1 & l2 & Hl & Hs & Hrel).
  destruct (holds_ticket_occupied _ _ _ Hs) as (Hocc & r & Hr & _).
  unfold Slot.the_vehicle at 1. rewrite Hr. simpl.
  destruct (Slot.calculate_fee h (ParkingLot.at_fee clk) (ParkingLot.at_fee_pass clk) slot)
    as [fee|e] eqn:Hfee; simpl; [|discriminate].
  destruct (Slot.is_expired h (ParkingLot.at_expired_pass clk) (ParkingLot.at_expired clk) slot)
    as [overstay|e] eqn:Hexp; simpl; [|discriminate].
  destruct (Slot.allocation_time slot) as [entry|] eqn:Halloc; [|discriminate].
  destruct (ParkingLot.release_slot ticket pl _) as [released|e]; simpl; [|discriminate].
  intros [= <- <- <-] _. exists slot, r, entry. simpl.
  rewrite !store_upd_same.
  assert (Hw : Vehicle.warnings_issued
                 ((if overstay
                   then store_upd r (Vehicle.issue_warning "Overstay violation") h
                   else h) r)
               = Vehicle.warnings_issued (h r) + (if overstay then 1 else 0)).
  { destruct overstay; [|lia]. rewrite store_upd_same.
    apply (proj1 (issue_warning_fields _ _)). }
  assert (Hp : Vehicle.parking_sessions
                 ((if overstay
                   then store_upd r (Vehicle.issue_warning "Overstay violation") h
                   else h) r) = Vehicle.parking_sessions (h r)).
  { destruct overstay; [|reflexivity]. rewrite store_upd_same.
    unfold Vehicle.issue_warning. destruct (3 <=? _)%Z; now destruct (h r). }
  assert (Hf : Vehicle.total_fees_paid
                 ((if overstay
                   then store_upd r (Vehicle.issue_warning "Overstay violation") h
                   else h) r) = Vehicle.total_fees_paid (h r)).
  { destruct overstay; [|reflexivity]. rewrite store_upd_same.
    unfold Vehicle.issue_warning. destruct (3 <=? _)%Z; now destruct (h r). }
  set (h1 := if overstay then _ else h) in *.
  repeat split; auto.
  - destruct (h1 r); simpl in *. now rewrite Hp.
  - destruct (h1 r); simpl in *. now rewrite Hf.
  - destruct (h1 r); simpl in *. exact Hw.
  - intros r' Hne. rewrite !store_upd_other by assumption.
    subst h1. destruct overstay; [now apply store_upd_other|reflexivity].
Qed.

Lemma available_total_by_partition l :
  length (List.filter (fun s => negb (Slot.is_occupied s)) l) =
  sum_counts (ParkingLot.get_available_slots_count (ParkingLot.mk l ∅)).
Proof.
  unfold sum_counts, ParkingLot.get_available_slots_count, ParkingLot.available_count.
  simpl. induction l as [|a l IH]; simpl; [reflexivity|].
  destruct (Slot.vehicle_type a), (Slot.section a), (Slot.is_occupied a); simpl;
    simpl in IH; lia.
Qed.

(** X24. The entries of [get_available_slots_count], three sections for
    each of the three sizes, sum to the available slots that
    [get_system_status] reports. *)
Theorem breakdown_sums_to_available (pl : ParkingLot.t) :
  sum_counts (ParkingLot.get_available_slots_count pl) =
  ParkingLot.available_slots (ParkingLot.get_system_status pl) /\
  ParkingLot.available_counts (ParkingLot.get_system_status pl) =
  ParkingLot.get_available_slots_count pl /\
  map fst (ParkingLot.get_available_slots_count pl) = ["Small"; "Medium"; "Large"] /\
  Forall (fun row => map fst (snd row) = ["Regular"; "VIP"; "EV"])
         (ParkingLot.get_available_slots_count pl).
Proof.
  split; [|split; [reflexivity|split; [reflexivity|repeat constructor]]].
  simpl. unfold ParkingLot.get_occupied_slots.
  rewrite <- filter_negb_length, available_total_by_partition.
  reflexivity.
Qed.

Section Expired.

Lemma is_expired_occupied h n1 n2 s :
  Slot.is_expired h n1 n2 s = Ret true -> Slot.is_occupied s = true.
Proof.
  unfold Slot.is_expired. destruct (Slot.is_occupied s); [reflexivity|discriminate].
Qed.

Lemma is_expired_total h n1 n2 s :
  binding_ok s -> exists b, Slot.is_expired h n1 n2 s = Ret b.
Proof.
  intros [Hocc _]. unfold Slot.is_expired, Slot.the_vehicle.
  destruct (Slot.is_occupied s); [|eauto].
  destruct (Hocc eq_refl) as [[r ->] [a ->]]. simpl.
  destruct (Slot.pass_active _ _); eauto.
Qed.

Lemma expired_scan_occupied h clk i l l' :
  expired_scan h clk i l = Ret l' ->
  (forall s, In s l' -> In s l /\ Slot.is_occupied s = true) /\
  (length l' <= length (List.filter Slot.is_occupied l))%nat.
Proof.
  revert i l'. induction l as [|a l IH]; simpl; intros i l'.
  - intros [= <-]. split; [intros s []|simpl; lia].
  - destruct (Slot.is_expired h (fst (clk i)) (snd (clk i)) a) as [b|e] eqn:Ha;
      simpl; [|discriminate].
    destruct (expired_scan h clk (S i) l) as [tl|e] eqn:Hl; simpl; [|discriminate].
    intros [= <-]. destruct (IH _ _ Hl) as [Hin Hlen].
    destruct b.
    + pose proof (is_expired_occupied _ _ _ _ Ha) as Hocc. rewrite Hocc. split.
      * intros s [<-|Hs]; [auto|]. destruct (Hin s Hs). auto.
      * simpl. lia.
    + split.
      * intros s Hs. destruct (Hin s Hs). auto.
      * destruct (Slot.is_occupied a); simpl; lia.
Qed.

Lemma expired_scan_total h clk i l :
  (forall s, In s l -> binding_ok s) -> exists l', expired_scan h clk i l = Ret l'.
Proof.
  revert i. induction l as [|a l IH]; simpl; intros i Hok; [eauto|].
  destruct (is_expired_total h (fst (clk i)) (snd (clk i)) a (Hok a (or_introl eq_refl)))
    as [b ->]. simpl.
  destruct (IH (S i) (fun s Hs => Hok s (or_intror Hs))) as [tl ->]. simpl. eauto.
Qed.

End Expired.

(** X25. [check_expired_slots] returns occupied slots only, so the expired
    count never exceeds the occupied count of [get_system_status]. *)
Theorem expired_slots_are_occupied (clk : nat -> datetime * datetime)
    (pl : ParkingLot.t) (h : store) :
  (forall s, In s (ParkingLot.slots pl) -> binding_ok s) ->
  exists expired,
    check_expired_slots clk pl h = Ret expired /\
    (forall s, In s expired -> In s (ParkingLot.get_occupied_slots pl)) /\
    (length expired <= ParkingLot.occupied_slots (ParkingLot.get_system_status pl))%nat.
Proof.
  intros Hok. unfold check_expired_slots.
  destruct (expired_scan_total h clk 0 _ Hok) as [l' Hl'].
  exists l'. split; [exact Hl'|].
  destruct (expired_scan_occupied _ _ _ _ _ Hl') as [Hin Hlen].
  split; [|exact Hlen].
  intros s Hs. destruct (Hin s Hs). apply filter_In. auto.
Qed.

(** X26. [Slot.allocate] on a free slot binds the vehicle and stamps slot
    and vehicle with [now]; a further [allocate] is refused and changes
    nothing; [release] returns the vehicle and keeps the allocation
    time; a second [release], like the release of a free slot, returns
    [None]. *)
Theorem slot_allocate_release_round_trip (r : ref) (now : datetime)
    (s : Slot.t) (h : store) :
  Slot.is_occupied s = false ->
  let h1 := store_upd r (Vehicle.set_allocation_time (Some now)) h in
  let s1 := bind_slot r now s in
  Slot.allocate r now s h = (true, s1, h1) /\
  Vehicle.allocation_time (h1 r) = Some now /\
  (forall r' now', Slot.allocate r' now' s1 h1 = (false, s1, h1)) /\
  Slot.release s1
    = (Some r, Slot.mk (Slot.id s) (Slot.level s) (Slot.section s)
                       (Slot.vehicle_type s) None (Some now) false) /\
  Slot.release (snd (Slot.release s1)) = (None, snd (Slot.release s1)) /\
  Slot.release s = (None, s).
Proof.
  intros Hocc h1 s1.
  assert (Ht : Vehicle.allocation_time (h1 r) = Some now).
  { unfold h1. rewrite store_upd_same. now destruct (h r). }
  split.
  { unfold Slot.allocate. rewrite Hocc. cbv zeta. fold h1. rewrite Ht. reflexivity. }
  split; [exact Ht|]. split; [reflexivity|]. split; [reflexivity|].
  split; [reflexivity|]. unfold Slot.release. now rewrite Hocc.
Qed.

(** ** The further properties at concrete inputs *)

Lemma once_allocated_reachable : reachable once_allocated.
Proof.
  apply (reach_step any_call (initial (fun _ => standard_car))
           (AllocateSlot 0%nat false 0)); [apply reach_initial|exact I].
Qed.

Lemma initial_ticket_unbound h ticket : ticket_unbound (initial h) ticket.
Proof.
  intros s r Hin Hocc. simpl in Hin.
  rewrite (initial_unoccupied s Hin) in Hocc. discriminate.
Qed.

Lemma initial_has_free_medium :
  exists s, In s (ParkingLot.slots (lot (initial (fun _ => standard_car)))) /\
            Slot.vehicle_type s = Vehicle.vehicle_type standard_car /\
            Slot.is_occupied s = false.
Proof.
  exists (Slot.__init__ "R1M01" 1 ParkSection.REGULAR VehicleType.MEDIUM).
  split; [apply (nth_error_In _ 15); vm_compute; reflexivity|]. split; reflexivity.
Qed.

Lemma expired_iff_overstay_charged_witness :
  Slot.is_expired (objects once_allocated) 0 (30 * HOUR) standard_slot = Ret true <->
  (0 < Slot.overstay_penalty (objects once_allocated 0%nat) (30 * HOUR - 0)%Z)%Q.
Proof.
  exact (proj1 (expired_iff_overstay_charged (objects once_allocated) standard_slot
                  0%nat 0 (30 * HOUR) 0 eq_refl eq_refl eq_refl eq_refl)).
Defined.

Lemma reachable_find_is_first_free_witness :
  ParkingLot._find_slot_in_section VehicleType.MEDIUM ParkSection.REGULAR
    (lot once_allocated) =
  List.find (ParkingLot.candidate VehicleType.MEDIUM ParkSection.REGULAR)
            (ParkingLot.slots (lot once_allocated)).
Proof.
  exact (reachable_find_is_first_free once_allocated VehicleType.MEDIUM
           ParkSection.REGULAR once_allocated_reachable).
Defined.

Lemma allocate_slot_counts_witness :
  length (ParkingLot.get_occupied_slots (lot once_allocated)) =
    S (length (ParkingLot.get_occupied_slots ParkingLot.__init__)) /\
  forall vt sec,
    ParkingLot.available_count vt sec ParkingLot.__init__ =
    (ParkingLot.available_count vt sec (lot once_allocated) +
     (if in_partition vt sec standard_slot then 1 else 0))%nat.
Proof.
  apply (allocate_slot_counts 0%nat false 0 ParkingLot.__init__ (fun _ => standard_car)
           standard_slot (lot once_allocated) (objects once_allocated)).
  - reflexivity.
  - vm_compute. reflexivity.
Defined.

Lemma release_slot_counts_witness :
  Slot.is_occupied (free_slot standard_slot) = false /\
  In (free_slot standard_slot)
     (ParkingLot.slots (lot (run (ReleaseSlot "5B20D4A7") once_allocated))) /\
  S (length (ParkingLot.get_occupied_slots
               (lot (run (ReleaseSlot "5B20D4A7") once_allocated)))) =
    length (ParkingLot.get_occupied_slots (lot once_allocated)) /\
  forall vt sec,
    ParkingLot.available_count vt sec (lot (run (ReleaseSlot "5B20D4A7") once_allocated)) =
    (ParkingLot.available_count vt sec (lot once_allocated) +
     (if in_partition vt sec (free_slot standard_slot) then 1 else 0))%nat.
Proof.
  apply (release_slot_counts "5B20D4A7" (lot once_allocated) (objects once_allocated)
           (free_slot standard_slot)
           (lot (run (ReleaseSlot "5B20D4A7") once_allocated))).
  vm_compute. reflexivity.
Defined.

Lemma allocate_then_find_by_ticket_witness :
  exists s',
    ParkingLot.get_slot_by_ticket "5B20D4A7" (lot once_allocated)
                                  (objects once_allocated) = Ret (Some s') /\
    Slot.is_occupied s' = true /\ Slot.vehicle s' = Some 0%nat /\
    Slot.allocation_time s' = Some 0%Z /\
    Slot.vehicle_type s' = VehicleType.MEDIUM.
Proof.
  exact (allocate_then_find_by_ticket (initial (fun _ => standard_car)) 0%nat false 0
           (reach_initial any_call _) (initial_ticket_unbound _ _)
           initial_has_free_medium).
Defined.


Lemma exit_unknown_ticket_witness :
  run (ProcessVehicleExit "00000000" after_30_hours) once_allocated = once_allocated.
Proof.
  refine (proj2 (exit_unknown_ticket once_allocated "00000000" after_30_hours _ _)).
  - exact (reachable_binding_ok any_call _ once_allocated_reachable).
  - intros s r _ _ _. simpl. unfold store_upd, store_set.
    destruct (Nat.eqb r 0); vm_compute; discriminate.
Defined.

Lemma third_warning_suspends_witness :
  ParkingLot.validate_vehicle_entry 0%nat false 0 0 ParkingLot.__init__
    (store_upd 0%nat (Vehicle.issue_warning "Overstay violation")
               (fun _ => warned_twice))
  = (Ret (false, "Vehicle suspended: Multiple violations"),
     store_upd 0%nat (Vehicle.issue_warning "Overstay violation")
               (fun _ => warned_twice)).
Proof.
  refine (proj1 (proj2 (third_warning_suspends 0%nat "Overstay violation" false 0 0
                          ParkingLot.__init__ (fun _ => warned_twice) _))).
  vm_compute. discriminate.
Defined.

Lemma validate_entry_allowed_witness :
  In standard_slot (ParkingLot.slots (lot parked_with_visitor)) /\
  fst (ParkingLot.validate_vehicle_entry 1%nat false 0 0
         (lot parked_with_visitor) (objects parked_with_visitor))
    = Ret (true, "Entry allowed") /\
  Vehicle.customer_type (objects parked_with_visitor 1%nat) = CustomerType.REGULAR /\
  Vehicle.license_plate (objects parked_with_visitor 0%nat)
    <> Vehicle.license_plate (objects parked_with_visitor 1%nat).
Proof.
  assert (Hin : In standard_slot (ParkingLot.slots (lot parked_with_visitor)))
    by (apply (nth_error_In _ 15); vm_compute; reflexivity).
  split; [exact Hin|]. split; [vm_compute; reflexivity|]. split; [reflexivity|].
  destruct (validate_entry_allowed 1%nat false 0 0 (lot parked_with_visitor)
              (objects parked_with_visitor)
              (store_set 1%nat (objects parked_with_visitor 1%nat)
                         (objects parked_with_visitor))
              "Entry allowed")
    as (_ & _ & _ & _ & Hplate).
  - vm_compute. reflexivity.
  - exact (Hplate eq_refl standard_slot 0%nat Hin eq_refl eq_refl).
Defined.

Lemma already_parked_only_for_regular_witness :
  Vehicle.customer_type (objects once_allocated 0%nat) = CustomerType.REGULAR /\
  exists s r0, In s (ParkingLot.slots (lot once_allocated)) /\
               Slot.is_occupied s = true /\ Slot.vehicle s = Some r0 /\
               Vehicle.license_plate (objects once_allocated r0)
               = Vehicle.license_plate (objects once_allocated 0%nat).
Proof.
  apply (already_parked_only_for_regular 0%nat false 0 0 (lot once_allocated)
           (objects once_allocated)
           (store_set 0%nat (objects once_allocated 0%nat) (objects once_allocated))).
  vm_compute. reflexivity.
Defined.

Lemma exit_records_the_session_witness :
  exists slot r entry,
    ParkingLot.get_slot_by_ticket "5B20D4A7" (lot once_allocated)
                                  (objects once_allocated) = Ret (Some slot) /\
    Slot.vehicle slot = Some r /\ Slot.allocation_time slot = Some entry /\
    Vehicle.parking_sessions (snd exit_of_standard_car r)
      = (Vehicle.parking_sessions (objects once_allocated r)
         ++ [(entry, 30 * HOUR, Slot.id slot)])%list%Z.
Proof.
  destruct (exit_records_the_session "5B20D4A7" after_30_hours
              (lot once_allocated) (objects once_allocated)
              (fst (fst exit_of_standard_car)) (snd (fst exit_of_standard_car))
              (snd exit_of_standard_car))
    as (slot & r & entry & H1 & H2 & H3 & _ & _ & _ & _ & _ & H4 & _).
  - vm_compute. reflexivity.
  - vm_compute. reflexivity.
  - exists slot, r, entry. auto.
Defined.

Lemma expired_slots_are_occupied_witness :
  exists expired,
    check_expired_slots always_30_hours (lot once_allocated) (objects once_allocated)
      = Ret expired /\
    (forall s, In s expired -> In s (ParkingLot.get_occupied_slots (lot once_allocated))) /\
    (length expired <=
     ParkingLot.occupied_slots (ParkingLot.get_system_status (lot once_allocated)))%nat.
Proof.
  exact (expired_slots_are_occupied always_30_hours (lot once_allocated)
           (objects once_allocated)
           (reachable_binding_ok any_call _ once_allocated_reachable)).
Defined.

Lemma slot_allocate_release_round_trip_witness :
  Slot.release standard_slot
  = (Some 0%nat,
     Slot.mk "R1M01" 1 ParkSection.REGULAR VehicleType.MEDIUM None (Some 0%Z) false).
Proof.
  exact (proj1 (proj2 (proj2 (proj2
           (slot_allocate_release_round_trip 0%nat 0
              (Slot.__init__ "R1M01" 1 ParkSection.REGULAR VehicleType.MEDIUM)
              (fun _ => standard_car) eq_refl))))).
Defined.

(** The slots [check_expired_slots] reports 30 hours after the
    allocation of the Standard-tier car: its slot and no other. *)
Example expired_after_30_hours :
  check_expired_slots always_30_hours (lot once_allocated) (objects once_allocated)
  = Ret [standard_slot].
Proof. vm_compute. reflexivity. Qed.
